(** * Finite differencing routine of NumericDiffCostFunction

    A shallow embedding of [include/ceres/internal/numeric_diff.h]: the
    struct template [NumericDiff], its static member
    [EvaluateJacobianForParameterBlock] and the partial specialisation for a
    parameter block of static size zero.

    A C++ [double] is an IEEE 754 binary64 number: the kernel's primitive
    [float], whose operations are specified by [SpecFloat] at precision 53
    and maximal exponent 1024.  Equality of two [float]s is equality of
    their bit patterns (up to the payload of a NaN). *)

From Stdlib Require Import ZArith Lia Bool String Floats.
From stdpp Require Import base list.

#[local] Open Scope Z_scope.

(** ** Doubles *)

Abbreviation double := float.

#[global] Instance double_inhabited : Inhabited double := populate 0%float.

(** [std::numeric_limits<double>::epsilon()]: the gap between 1 and the
    next double, two to the power -52. *)
Definition epsilon : double := 0x1p-52%float.

(** [std::max(a, b)] of the C++ standard library: [(a < b) ? b : a]. *)
Definition std_max (a b : double) : double :=
  if (a <? b)%float then b else a.

(** [const double min_step_size =
       std::sqrt(std::numeric_limits<double>::epsilon());] *)
Definition min_step_size : double := sqrt epsilon.

(** ** Template parameters *)

(** [ceres::NumericDiffMethod], declared in [ceres/types.h]. *)
Inductive NumericDiffMethod := CENTRAL | FORWARD.

(** The template arguments of [NumericDiff] that the body looks at.  The
    block sizes [N0] ... [N9] are only handed on to [EvaluateImpl]; they are
    part of the cost functor below. *)
Record TemplateArgs := {
  kMethod : NumericDiffMethod;
  kNumResiduals : Z;
  kParameterBlock : Z;
  kParameterBlockSize : Z
}.

(** ** Memory *)

(** [double** parameters]: the parameter blocks. *)
Abbreviation ParameterBlocks := (list (list double)).

(** The cost functor as [EvaluateImpl] uses it: from the parameter blocks to
    the residuals it writes, [None] when it returns [false].  It gets the
    blocks as [double const* const*] and cannot write them. *)
Definition CostFunctor := ParameterBlocks -> option (list double).

(** What a call reads and writes: the parameter blocks and the caller's
    jacobian buffer, which do not overlap.  [evaluations] is a ghost log of
    the points at which the functor has been called, oldest first.  The local
    vector [residuals] is the value that [EvaluateImpl] yields. *)
Record Memory := {
  parameters : ParameterBlocks;
  jacobian : list double;
  evaluations : list ParameterBlocks
}.

(** The body of the function returns [false] from inside the loop: a
    computation yields [None] when the function has returned [false]. *)
Definition Fn (A : Type) : Type := Memory -> option A * Memory.

Definition ret {A} (a : A) : Fn A := fun mem => (Some a, mem).

Definition bind {A B} (c : Fn A) (k : A -> Fn B) : Fn B :=
  fun mem =>
    match c mem with
    | (Some a, mem') => k a mem'
    | (None, mem') => (None, mem')
    end.

Notation "'let*' x ':=' c 'in' k" := (bind c (fun x => k))
  (at level 10, x name, c at level 100, k at level 200).
Notation "c '>>' k" := (bind c (fun _ => k))
  (at level 100, k at level 200, right associativity).

(** [if (!EvaluateImpl<...>(functor, parameters, residuals.data(), functor))
      return false;]
    Both overloads of [EvaluateImpl] call the functor on [parameters]. *)
Definition EvaluateImpl (functor : CostFunctor) : Fn (list double) :=
  fun mem =>
    (functor (parameters mem),
     {| parameters := parameters mem;
        jacobian := jacobian mem;
        evaluations := evaluations mem ++ [parameters mem] |}).

(** ** Eigen maps *)

Inductive StorageOrder := ColMajor | RowMajor.

(** [Map<JacobianMatrix>]: a [rows] by [cols] view of a buffer. *)
Record JacobianMap := {
  order : StorageOrder;
  rows : nat;
  cols : nat
}.

(** Where coefficient [(i, j)] of the view lives in the buffer.  Reading
    outside the buffer (undefined in C++) gives 0 and writing there writes
    nothing. *)
Definition coeff_index (v : JacobianMap) (i j : nat) : nat :=
  match order v with
  | RowMajor => (i * cols v + j)%nat
  | ColMajor => (j * rows v + i)%nat
  end.

Definition coeff (v : JacobianMap) (buf : list double) (i j : nat) : double :=
  buf !!! coeff_index v i j.

(** A coefficient-wise assignment to column [j]: coefficient [(i, j)]
    becomes [f i] of its old value, for each row [i]. *)
Definition col_update (v : JacobianMap) (j : nat)
    (f : nat -> double -> double) (buf : list double) : list double :=
  foldl (fun b i => <[coeff_index v i j := f i (b !!! coeff_index v i j)]> b)
        buf (seq 0 (rows v)).

Definition on_jacobian (f : list double -> list double) : Fn unit :=
  fun mem =>
    (Some tt,
     {| parameters := parameters mem;
        jacobian := f (jacobian mem);
        evaluations := evaluations mem |}).

(** [m.col(j) = residuals;] *)
Definition col_assign (v : JacobianMap) (j : nat) (residuals : list double) : Fn unit :=
  on_jacobian (col_update v j (fun i _ => residuals !!! i)).

(** [m.col(j) -= residuals;] *)
Definition col_sub (v : JacobianMap) (j : nat) (residuals : list double) : Fn unit :=
  on_jacobian (col_update v j (fun i c => (c - residuals !!! i)%float)).

(** [m.col(j) *= s;] *)
Definition col_scale (v : JacobianMap) (j : nat) (s : double) : Fn unit :=
  on_jacobian (col_update v j (fun _ c => (c * s)%float)).

(** The parameter blocks with coordinate [j] of block [k] set to [a]; a
    write outside the blocks (undefined in C++) writes nothing. *)
Definition with_coordinate (k j : nat) (a : double) (blocks : ParameterBlocks)
    : ParameterBlocks :=
  alter (<[j := a]>) k blocks.

(** [x_plus_delta(j) = a;] where [x_plus_delta] maps block [k]. *)
Definition x_plus_delta_set (k j : nat) (a : double) : Fn unit :=
  fun mem =>
    (Some tt,
     {| parameters := with_coordinate k j a (parameters mem);
        jacobian := jacobian mem;
        evaluations := evaluations mem |}).

(** [for (int j = 0; j < n; ++j) body], from [j] on with [n] rounds left. *)
Fixpoint for_loop (body : nat -> Fn unit) (n j : nat) : Fn unit :=
  match n with
  | O => ret tt
  | S n' => body j >> for_loop body n' (S j)
  end.

(** What a call does: it returns a boolean, or the process is aborted. *)
Inductive Outcome :=
  | Returned (b : bool) (mem : Memory)
  | Fatal (message : string).

(** Modelled from the spec: glog's [LOG(FATAL)], which is not among the
    sources.  It "signals a fatal, non-recoverable condition": the message is
    logged and the process is aborted, so that the statement after it is
    never reached. *)
Definition LOG_FATAL (message : string) : Outcome := Fatal message.

Section NumericDiff.

(** [ceres::DYNAMIC] is declared in [ceres/types.h], which is not among
    the sources: the development is parametric in it. *)
Variable DYNAMIC : Z.

Variable targs : TemplateArgs.
Variable functor : CostFunctor.
Variable residuals_at_eval_point : list double.
Variable relative_step_size : double.
Variables num_residuals parameter_block_index parameter_block_size : Z.

Definition num_residuals_internal : Z :=
  if negb (kNumResiduals targs =? DYNAMIC)
  then kNumResiduals targs else num_residuals.

Definition parameter_block_index_internal : Z :=
  if negb (kParameterBlock targs =? DYNAMIC)
  then kParameterBlock targs else parameter_block_index.

Definition parameter_block_size_internal : Z :=
  if negb (kParameterBlockSize targs =? DYNAMIC)
  then kParameterBlockSize targs else parameter_block_size.

(** [Map<JacobianMatrix> parameter_jacobian(jacobian,
      num_residuals_internal, parameter_block_size_internal);]
    with [(kParameterBlockSize == 1) ? ColMajor : RowMajor]. *)
Definition parameter_jacobian : JacobianMap :=
  {| order := if kParameterBlockSize targs =? 1 then ColMajor else RowMajor;
     rows := Z.to_nat num_residuals_internal;
     cols := Z.to_nat parameter_block_size_internal |}.

(** The block that [x_plus_delta] maps.  The sizes and the index are C++
    [int]s; a negative one (an Eigen assertion, or undefined) counts as 0. *)
Definition target_block : nat := Z.to_nat parameter_block_index_internal.

(** [ParameterVector x(x_plus_delta);] a copy of the mapped block. *)
Definition x_copy (mem : Memory) : list double :=
  take (Z.to_nat parameter_block_size_internal)
       (parameters mem !!! target_block).

(** [ParameterVector step_size = x.array().abs() * relative_step_size;] *)
Definition step_sizes (x : list double) : list double :=
  (fun a => (abs a * relative_step_size)%float) <$> x.

(** [const double delta = std::max(min_step_size, step_size(j));] *)
Definition delta_of (step_size : list double) (j : nat) : double :=
  std_max min_step_size (step_size !!! j).

(** One round of the loop, for coordinate [j]. *)
Definition iteration (x step_size : list double) (j : nat) : Fn unit :=
  let delta := delta_of step_size j in
  x_plus_delta_set target_block j (x !!! j + delta)%float >>
  let* residuals := EvaluateImpl functor in
  col_assign parameter_jacobian j residuals >>
  let one_over_delta := (1 / delta)%float in
  let* one_over_delta :=
    match kMethod targs with
    | CENTRAL =>
        x_plus_delta_set target_block j (x !!! j - delta)%float >>
        let* residuals := EvaluateImpl functor in
        col_sub parameter_jacobian j residuals >>
        ret (one_over_delta / 2)%float
    | FORWARD =>
        col_sub parameter_jacobian j residuals_at_eval_point >>
        ret one_over_delta
    end in
  x_plus_delta_set target_block j (x !!! j) >>
  col_scale parameter_jacobian j one_over_delta.

(** The member of the primary template. *)
Definition EvaluateJacobianForParameterBlock (mem : Memory) : bool * Memory :=
  let x := x_copy mem in
  let step_size := step_sizes x in
  match for_loop (iteration x step_size)
                 (Z.to_nat parameter_block_size_internal) 0 mem with
  | (Some _, mem') => (true, mem')
  | (None, mem') => (false, mem')
  end.

(** The member of the partial specialisation for [kParameterBlockSize = 0]. *)
Definition EvaluateJacobianForParameterBlock_0 (mem : Memory) : Outcome :=
  LOG_FATAL "Control should never reach here.".

(** [NumericDiff<CostFunctor, kMethod, kNumResiduals, N0, ..., N9,
      kParameterBlock, kParameterBlockSize>
      ::EvaluateJacobianForParameterBlock]: the compiler takes the
    specialisation when the block size is the constant 0. *)
Definition NumericDiff (mem : Memory) : Outcome :=
  if kParameterBlockSize targs =? 0
  then EvaluateJacobianForParameterBlock_0 mem
  else let (b, mem') := EvaluateJacobianForParameterBlock mem in
       Returned b mem'.

End NumericDiff.

(** ** The finite-difference formulas *)

(** The slope: the difference of the residuals divided by the run, the
    division done as the loop does it ("Divide out the run to get slope"), by
    scaling with [one_over_delta = 1.0 / delta], halved for CENTRAL where the
    run is [2 * delta]. *)
Definition scaled_difference (method : NumericDiffMethod)
    (f_plus f_other delta : double) : double :=
  match method with
  | FORWARD => ((f_plus - f_other) * (1 / delta))%float
  | CENTRAL => ((f_plus - f_other) * (1 / delta / 2))%float
  end.

(** The finite-difference estimate of the derivative of residual [i] in
    coordinate [j] of block [k] at the point [blocks], by [formula]; [None]
    when the functor fails at a perturbed point. *)
Definition finite_difference
    (formula : NumericDiffMethod -> double -> double -> double -> double)
    (method : NumericDiffMethod) (functor : CostFunctor)
    (residuals_at_eval_point : list double) (relative_step_size : double)
    (blocks : ParameterBlocks) (k i j : nat) : option double :=
  let x_j := (blocks !!! k) !!! j in
  let delta := std_max (sqrt epsilon) (relative_step_size * abs x_j)%float in
  match functor (with_coordinate k j (x_j + delta)%float blocks) with
  | None => None
  | Some f_plus =>
      match method with
      | FORWARD =>
          Some (formula FORWARD (f_plus !!! i) (residuals_at_eval_point !!! i) delta)
      | CENTRAL =>
          match functor (with_coordinate k j (x_j - delta)%float blocks) with
          | None => None
          | Some f_minus =>
              Some (formula CENTRAL (f_plus !!! i) (f_minus !!! i) delta)
          end
      end
  end.

(** The points at which the round for coordinate [j] of block [k] calls
    the functor when no call fails, in the order of the calls: the forward
    point and, for CENTRAL, the backward point. *)
Definition perturbed_points (method : NumericDiffMethod) (k : nat)
    (x step_size : list double) (blocks : ParameterBlocks) (j : nat)
    : list ParameterBlocks :=
  let delta := delta_of step_size j in
  match method with
  | FORWARD => [with_coordinate k j (x !!! j + delta)%float blocks]
  | CENTRAL => [with_coordinate k j (x !!! j + delta)%float blocks;
                with_coordinate k j (x !!! j - delta)%float blocks]
  end.

(** The effective value of a size or of the index in the words of the
    specification: the template constant whenever it is not DYNAMIC, and the
    run-time argument only when it is. *)
Definition preferred (DYNAMIC constant argument : Z) : Z :=
  if decide (constant = DYNAMIC) then argument else constant.

(** ** Proof automation *)

(** Closes [Forall (fun p => is_Some (functor p)) [p1; ...; pn]] from the
    results of the calls in the context. *)
Ltac all_succeed :=
  repeat (apply Forall_cons_2; [eexists; eassumption|]); apply Forall_nil_2.

(** ** Sample calls *)

Module Samples.

(** [ceres::DYNAMIC] as [ceres/types.h] declares it. *)
Definition DYNAMIC : Z := -1.

Definition static_args (method : NumericDiffMethod) (m n : Z) : TemplateArgs :=
  {| kMethod := method; kNumResiduals := m;
     kParameterBlock := 0; kParameterBlockSize := n |}.

Definition dynamic_args (method : NumericDiffMethod) : TemplateArgs :=
  {| kMethod := method; kNumResiduals := DYNAMIC;
     kParameterBlock := DYNAMIC; kParameterBlockSize := DYNAMIC |}.

(** [f(x) = (x0 * x0, x0 * x1)] of one block of two parameters. *)
Definition quadratic : CostFunctor :=
  fun blocks =>
    let x := blocks !!! 0%nat in
    Some [(x !!! 0%nat * x !!! 0%nat)%float; (x !!! 0%nat * x !!! 1%nat)%float].

(** A functor whose only residual is 3 everywhere. *)
Definition constant3 : CostFunctor := fun _ => Some [3%float].

(** [f(x) = (x0, 2 * x0)] of one block of one parameter. *)
Definition linear : CostFunctor :=
  fun blocks =>
    let x := blocks !!! 0%nat in
    Some [x !!! 0%nat; (2 * x !!! 0%nat)%float].

(** [quadratic] where the second parameter is 3; it fails elsewhere. *)
Definition quadratic_at_three : CostFunctor :=
  fun blocks =>
    let x := blocks !!! 0%nat in
    if (x !!! 1%nat =? 3)%float
    then Some [(x !!! 0%nat * x !!! 0%nat)%float; (x !!! 0%nat * x !!! 1%nat)%float]
    else None.

(** A functor that fails everywhere. *)
Definition failing : CostFunctor := fun _ => None.

(** A functor that fails exactly where the first parameter is below 1. *)
Definition fails_below_one : CostFunctor :=
  fun blocks =>
    let x := blocks !!! 0%nat in
    if (x !!! 0%nat <? 1)%float then None else Some [x !!! 0%nat].

Definition memory (blocks : ParameterBlocks) (n : nat) : Memory :=
  {| parameters := blocks; jacobian := replicate n 0%float; evaluations := [] |}.

End Samples.

Example quadratic_forward :
  NumericDiff Samples.DYNAMIC (Samples.static_args FORWARD 2 2) Samples.quadratic
    [4; 6]%float 0x1p-20%float 2 0 2 (Samples.memory [[2; 3]%float] 4)
  = Returned true
      {| parameters := [[2; 3]%float];
         jacobian := [0x1.000008p+2; 0; 0x1.8p+1; 0x1p+1]%float;
         evaluations := [[[0x1.00001p+1; 3]%float]; [[2; 0x1.800018p+1]%float]] |}.
Proof. vm_compute. reflexivity. Qed.


(** A block of one parameter: the jacobian is a single column and its map
    is column-major. *)
Example single_column_forward :
  NumericDiff Samples.DYNAMIC (Samples.static_args FORWARD 2 1) Samples.linear
    [1; 2]%float 0.5%float 2 0 1 (Samples.memory [[1%float]] 2)
  = Returned true
      {| parameters := [[1%float]];
         jacobian := [1; 2]%float;
         evaluations := [[[1.5%float]]] |}.
Proof. vm_compute. reflexivity. Qed.

(** ** Binary64 arithmetic

    The lemmas go through the specification of the primitive operations on
    [spec_float]. *)

Module Binary64.

Lemma SFmul_comm (a b : spec_float) : SF64mul a b = SF64mul b a.
Proof.
  unfold SF64mul.
  destruct a as [sa|sa| |sa ma ea], b as [sb|sb| |sb mb eb]; cbn [SFmul];
    rewrite ?(xorb_comm sa sb); try reflexivity.
  now rewrite (Pos.mul_comm ma mb), (Z.add_comm ea eb).
Qed.

Lemma mul_comm (a b : double) : (a * b)%float = (b * a)%float.
Proof. apply Prim2SF_inj. rewrite !mul_spec. apply SFmul_comm. Qed.

Lemma Prim2SF_min_step_size :
  Prim2SF min_step_size = S754_finite false 4503599627370496 (-78).
Proof. vm_compute. reflexivity. Qed.

Lemma ltb_leb (a b : double) : (a <? b)%float = true -> (a <=? b)%float = true.
Proof.
  rewrite FloatAxioms.ltb_spec, FloatAxioms.leb_spec. unfold SFltb, SFleb.
  now destruct (SFcompare (Prim2SF a) (Prim2SF b)) as [[| |]|].
Qed.

(** Whatever is strictly above [min_step_size] is a positive number or plus
    infinity. *)
Lemma above_min_step_size (b : double) :
  (min_step_size <? b)%float = true ->
  Prim2SF b = S754_infinity false \/ exists m e, Prim2SF b = S754_finite false m e.
Proof.
  rewrite FloatAxioms.ltb_spec, Prim2SF_min_step_size.
  destruct (Prim2SF b) as [s|[|]| |[|] m e]; cbn; try discriminate; eauto.
Qed.



Lemma digits2_pos_xO (p : positive) :
  Z.pos (digits2_pos p~0) = Z.pos (digits2_pos p) + 1.
Proof. cbn [digits2_pos]. lia. Qed.

Lemma digits2_pos_shift52 (m : positive) :
  Z.pos (digits2_pos (4503599627370496 * m)) = Z.pos (digits2_pos m) + 52.
Proof.
  cbv beta iota fix delta [Pos.mul PosDef.Pos.mul].
  rewrite !digits2_pos_xO. lia.
Qed.

Lemma shr_1_shift52 (m : positive) :
  SpecFloat.iter_pos shr_1 52
    (Build_shr_record (Z.pos (4503599627370496 * m)) false false)
  = Build_shr_record (Z.pos m) false false.
Proof. reflexivity. Qed.

Lemma shr_1_shift51 (m : positive) :
  SpecFloat.iter_pos shr_1 51
    (Build_shr_record (Z.pos (4503599627370496 * m)) false false)
  = Build_shr_record (Z.pos m~0) false false.
Proof. reflexivity. Qed.

(** Doubling a positive double gives a positive double or plus infinity:
    the product of the mantissas has its 52 low bits clear, and rounding
    shifts out 52 of them (51 for a subnormal), none of them set. *)
Lemma SFmul_two_pos (m : positive) (e : Z) :
  valid_binary (S754_finite false m e) = true ->
  SFltb (S754_zero false)
        (SF64mul (S754_finite false 4503599627370496 (-51))
                 (S754_finite false m e)) = true.
Proof.
  cbn [SpecFloat.valid_binary]. unfold bounded, canonical_mantissa, fexp, emin.
  intros [Hc _]%andb_prop. apply Z.eqb_eq in Hc.
  unfold SF64mul, SFmul. cbn [xorb].
  unfold binary_round_aux. unfold shr_fexp at 1. unfold fexp, emin.
  cbn [shr_record_of_loc Zdigits2].
  rewrite digits2_pos_shift52.
  set (d := Z.pos (digits2_pos m)) in *.
  assert (Hd : 0 < d) by (subst d; lia).
  set (n := Z.max _ _ - _).
  assert (Hn : n = 52 /\ d = 53 /\ -1074 <= e \/ n = 51 /\ d < 53 /\ e = -1074)
    by (subst n; unfold prec, emax in *; lia).
  destruct Hn as [(-> & Hd53 & He)|(-> & Hd53 & He)]; cbn [shr].
  - rewrite shr_1_shift52. cbn [loc_of_shr_record round_nearest_even shr_m].
    unfold shr_fexp, fexp, emin. cbn [Zdigits2]. fold d.
    replace (Z.max _ _ - _) with 0 by (unfold prec, emax; lia).
    cbn [shr shr_record_of_loc shr_m].
    now destruct (_ <=? _).
  - rewrite shr_1_shift51. cbn [loc_of_shr_record round_nearest_even shr_m].
    unfold shr_fexp, fexp, emin. cbn [Zdigits2]. rewrite digits2_pos_xO. fold d.
    replace (Z.max _ _ - _) with 0 by (unfold prec, emax; lia).
    cbn [shr shr_record_of_loc shr_m].
    now destruct (_ <=? _).
Qed.

(** A positive double, or plus infinity, is above zero, and so is its
    double. *)
Lemma positive_above_zero (b : double) :
  Prim2SF b = S754_infinity false \/ (exists m e, Prim2SF b = S754_finite false m e) ->
  (0 <? b)%float = true /\ (0 <? 2 * b)%float = true.
Proof.
  intros Hb. rewrite !FloatAxioms.ltb_spec, mul_spec.
  change (Prim2SF 0) with (S754_zero false).
  change (Prim2SF 2) with (S754_finite false 4503599627370496 (-51)).
  destruct Hb as [Hb|(m & e & Hb)].
  - now rewrite Hb.
  - split; [now rewrite Hb|].
    pose proof (Prim2SF_valid b) as Hv. rewrite Hb in Hv |- *.
    now apply SFmul_two_pos.
Qed.

End Binary64.

(** ** The step size *)

Lemma std_max_lower_bound (a b : double) :
  (a <=? a)%float = true -> (a <=? std_max a b)%float = true.
Proof.
  intros Ha. unfold std_max.
  destruct (a <? b)%float eqn:Hab; [now apply Binary64.ltb_leb|exact Ha].
Qed.

Lemma delta_of_step_sizes (relative_step_size : double) (x : list double) (j : nat) :
  (j < length x)%nat ->
  delta_of (step_sizes relative_step_size x) j
  = std_max min_step_size (abs (x !!! j) * relative_step_size)%float.
Proof.
  intros Hj. unfold delta_of, step_sizes.
  now rewrite (list_lookup_total_fmap _ _ _ Hj).
Qed.

Lemma delta_of_cases (step_size : list double) (j : nat) :
  delta_of step_size j = min_step_size \/
  (min_step_size <? delta_of step_size j)%float = true.
Proof.
  unfold delta_of, std_max.
  destruct (min_step_size <? step_size !!! j)%float eqn:E;
    [right; exact E|left; reflexivity].
Qed.

(** ** Column assignments *)

#[local] Open Scope nat_scope.

Section FoldInsert.

Variable g : nat -> nat.
Variable f : nat -> double -> double.

Let step (b : list double) (i : nat) : list double :=
  <[g i := f i (b !!! g i)]> b.

Lemma foldl_insert_length (rs : list nat) (buf : list double) :
  length (foldl step buf rs) = length buf.
Proof.
  revert buf. induction rs as [|a rs IH]; intros buf; cbn; [done|].
  rewrite IH. apply length_insert.
Qed.

Lemma foldl_insert_other (rs : list nat) (buf : list double) (p : nat) :
  (forall i, i ∈ rs -> g i <> p) -> foldl step buf rs !!! p = buf !!! p.
Proof.
  revert buf. induction rs as [|a rs IH]; intros buf Hp; cbn; [done|].
  rewrite IH by (intros i Hi; apply Hp; now right).
  apply list_lookup_total_insert_ne, Hp. now left.
Qed.

Lemma foldl_insert_same (rs : list nat) (buf : list double) (i : nat) :
  NoDup (g <$> rs) -> i ∈ rs -> g i < length buf ->
  foldl step buf rs !!! g i = f i (buf !!! g i).
Proof.
  revert buf. induction rs as [|a rs IH]; intros buf Hnd Hi Hlt; cbn.
  { now apply elem_of_nil in Hi. }
  rewrite fmap_cons in Hnd. apply NoDup_cons in Hnd as [Ha Hnd].
  destruct (decide (i = a)) as [->|Hne].
  - rewrite foldl_insert_other.
    + now apply list_lookup_total_insert_eq.
    + intros i' Hi' Heq. apply Ha. rewrite <- Heq. now apply list_elem_of_fmap_2.
  - apply elem_of_cons in Hi as [?|Hi]; [done|].
    rewrite IH; [|done|done|unfold step; now rewrite length_insert].
    f_equal. apply list_lookup_total_insert_ne.
    intros Heq. apply Ha. rewrite Heq. now apply list_elem_of_fmap_2.
Qed.

End FoldInsert.

Lemma coeff_index_lt (v : JacobianMap) (i j : nat) :
  i < rows v -> j < cols v -> coeff_index v i j < rows v * cols v.
Proof. unfold coeff_index. destruct (order v); nia. Qed.

Lemma coeff_index_inj (v : JacobianMap) (i j i' j' : nat) :
  i < rows v -> i' < rows v -> j < cols v -> j' < cols v ->
  coeff_index v i j = coeff_index v i' j' -> i = i' /\ j = j'.
Proof.
  unfold coeff_index. intros Hi Hi' Hj Hj' H.
  destruct (order v).
  - assert (j = j') as ->; [|lia].
    destruct (Nat.lt_trichotomy j j') as [Hlt|[->|Hlt]];
      [|reflexivity|]; exfalso; nia.
  - assert (i = i') as ->; [|lia].
    destruct (Nat.lt_trichotomy i i') as [Hlt|[->|Hlt]];
      [|reflexivity|]; exfalso; nia.
Qed.

Lemma col_update_length v j f buf : length (col_update v j f buf) = length buf.
Proof. apply foldl_insert_length. Qed.

(** A column assignment sets each coefficient of its column... *)
Lemma coeff_col_update_same v j f buf i :
  i < rows v -> j < cols v -> rows v * cols v <= length buf ->
  coeff v (col_update v j f buf) i j = f i (coeff v buf i j).
Proof.
  intros Hi Hj Hlen. unfold coeff, col_update.
  apply (foldl_insert_same (fun i => coeff_index v i j)).
  - apply NoDup_fmap_2_strong; [|apply NoDup_seq].
    intros a b [_ Ha]%elem_of_seq [_ Hb]%elem_of_seq Hab.
    now apply coeff_index_inj in Hab as [? _].
  - apply elem_of_seq. lia.
  - pose proof (coeff_index_lt v i j Hi Hj). lia.
Qed.

(** ... and leaves the other columns as they are. *)
Lemma coeff_col_update_other v j f buf i' j' :
  i' < rows v -> j < cols v -> j' < cols v -> j' <> j ->
  coeff v (col_update v j f buf) i' j' = coeff v buf i' j'.
Proof.
  intros Hi' Hj Hj' Hne. unfold coeff, col_update.
  apply (foldl_insert_other (fun i => coeff_index v i j)).
  intros i [_ Hi]%elem_of_seq Heq.
  apply coeff_index_inj in Heq as [_ ?]; [done|lia..].
Qed.

(** ** Perturbing and restoring a coordinate *)

Lemma with_coordinate_twice k j a b (blocks : ParameterBlocks) :
  with_coordinate k j a (with_coordinate k j b blocks) = with_coordinate k j a blocks.
Proof.
  unfold with_coordinate. rewrite list_alter_alter_eq.
  apply list_alter_ext; [|done]. intros blk _. cbn. apply list_insert_insert_eq.
Qed.

(** Writing back the copy of coordinate [j] undoes a write to it. *)
Lemma with_coordinate_restore k j n b (blocks : ParameterBlocks) :
  j < n ->
  with_coordinate k j (take n (blocks !!! k) !!! j) (with_coordinate k j b blocks)
  = blocks.
Proof.
  intros Hj. rewrite with_coordinate_twice. unfold with_coordinate.
  transitivity (alter id k blocks); [|now apply list_alter_id].
  apply list_alter_ext; [|done]. intros blk Hblk. cbn.
  rewrite (list_lookup_total_correct _ _ _ Hblk), lookup_total_take_lt by done.
  apply list_insert_id'. intros Hlt. now apply list_lookup_lookup_total_lt.
Qed.

(** ** One round of the loop *)

Section Iteration.

Variable DYNAMIC : Z.
Variable targs : TemplateArgs.
Variable functor : CostFunctor.
Variable residuals_at_eval_point : list double.
Variables num_residuals parameter_block_index parameter_block_size : Z.
Variables x step_size : list double.

Let k := target_block DYNAMIC targs parameter_block_index.
Let v := parameter_jacobian DYNAMIC targs num_residuals parameter_block_size.
Let round := iteration DYNAMIC targs functor residuals_at_eval_point
               num_residuals parameter_block_index parameter_block_size
               x step_size.

(** The round for coordinate [j], written out: where the functor is called,
    and what memory holds on each of the three ways out. *)
Lemma iteration_eq (j : nat) (mem : Memory) :
  let delta := delta_of step_size j in
  let forward := with_coordinate k j (x !!! j + delta)%float (parameters mem) in
  let backward := with_coordinate k j (x !!! j - delta)%float forward in
  round j mem =
  match functor forward with
  | None =>
      (None, {| parameters := forward; jacobian := jacobian mem;
                evaluations := evaluations mem ++ [forward] |})
  | Some f_plus =>
      let assigned := col_update v j (fun i _ => f_plus !!! i) (jacobian mem) in
      match kMethod targs with
      | FORWARD =>
          (Some tt,
           {| parameters := with_coordinate k j (x !!! j) forward;
              jacobian :=
                col_update v j (fun _ c => c * (1 / delta))%float
                  (col_update v j
                     (fun i c => c - residuals_at_eval_point !!! i)%float assigned);
              evaluations := evaluations mem ++ [forward] |})
      | CENTRAL =>
          match functor backward with
          | None =>
              (None, {| parameters := backward; jacobian := assigned;
                        evaluations := (evaluations mem ++ [forward]) ++ [backward] |})
          | Some f_minus =>
              (Some tt,
               {| parameters := with_coordinate k j (x !!! j) backward;
                  jacobian :=
                    col_update v j (fun _ c => c * (1 / delta / 2))%float
                      (col_update v j (fun i c => c - f_minus !!! i)%float assigned);
                  evaluations := (evaluations mem ++ [forward]) ++ [backward] |})
          end
      end
  end.
Proof.
  subst round. unfold iteration, bind, x_plus_delta_set, EvaluateImpl, col_assign,
    col_sub, col_scale, on_jacobian, ret. cbn.
  destruct (functor _) as [f_plus|]; [|reflexivity].
  destruct (kMethod targs); [|reflexivity]. cbn.
  now destruct (functor _) as [f_minus|].
Qed.

End Iteration.

(** ** The loop *)

Lemma for_loop_ext (body body' : nat -> Fn unit) (n j : nat) (mem : Memory) :
  (forall j mem, body j mem = body' j mem) ->
  for_loop body n j mem = for_loop body' n j mem.
Proof.
  intros Hext. revert j mem. induction n as [|n IH]; intros j mem; [done|].
  cbn [for_loop]. unfold bind. rewrite Hext.
  destruct (body' j mem) as [[[]|] mem1]; [apply IH|done].
Qed.

Section Loop.

Variable DYNAMIC : Z.
Variable targs : TemplateArgs.
Variable functor : CostFunctor.
Variable residuals_at_eval_point : list double.
Variable relative_step_size : double.
Variables num_residuals parameter_block_index parameter_block_size : Z.

Let k := target_block DYNAMIC targs parameter_block_index.
Let v := parameter_jacobian DYNAMIC targs num_residuals parameter_block_size.
Let N := Z.to_nat (parameter_block_size_internal DYNAMIC targs parameter_block_size).
Let round := iteration DYNAMIC targs functor residuals_at_eval_point
               num_residuals parameter_block_index parameter_block_size.

(** A round that runs to its end leaves the parameter blocks as it found
    them. *)
Lemma iteration_parameters x step_size j mem mem1 :
  x = take N (parameters mem !!! k) -> j < N ->
  round x step_size j mem = (Some tt, mem1) ->
  parameters mem1 = parameters mem.
Proof.
  intros -> Hj. subst round. rewrite iteration_eq. fold k v.
  destruct (functor _) as [f_plus|]; [|done].
  destruct (kMethod targs).
  - destruct (functor _) as [f_minus|]; [|done].
    intros [= <-]. cbn. rewrite with_coordinate_twice.
    now apply with_coordinate_restore.
  - intros [= <-]. cbn. now apply with_coordinate_restore.
Qed.

Lemma for_loop_parameters x step_size n j mem mem' :
  x = take N (parameters mem !!! k) -> j + n <= N ->
  for_loop (round x step_size) n j mem = (Some tt, mem') ->
  parameters mem' = parameters mem.
Proof.
  revert j mem. induction n as [|n IH]; intros j mem Hx Hn; cbn [for_loop].
  { now intros [= <-]. }
  unfold bind.
  destruct (round x step_size j mem) as [[[]|] mem1] eqn:Hround; [|done].
  apply iteration_parameters in Hround as Hp; [|done|lia].
  intros Hloop. apply IH in Hloop; [congruence|now rewrite Hp|lia].
Qed.

(** The functor calls of a round: all of them succeed when the round runs
    to its end; otherwise the last one failed and the ones before it
    succeeded. *)
Lemma iteration_evaluations x step_size j mem r mem1 :
  round x step_size j mem = (r, mem1) ->
  exists calls,
    evaluations mem1 = evaluations mem ++ calls /\
    match r with
    | Some _ => Forall (fun p => is_Some (functor p)) calls
    | None => exists earlier p, calls = earlier ++ [p] /\
                Forall (fun p => is_Some (functor p)) earlier /\ functor p = None
    end.
Proof.
  subst round. rewrite iteration_eq. fold k v.
  destruct (functor _) as [f_plus|] eqn:Hplus.
  - destruct (kMethod targs).
    + destruct (functor (with_coordinate k j (x !!! j - _)%float _))
        as [f_minus|] eqn:Hminus; intros [= <- <-]; cbn; rewrite <- app_assoc.
      * eexists; split; [done|]. all_succeed.
      * eexists; split; [done|]. eexists [_], _. split; [done|].
        split; [all_succeed|done].
    + intros [= <- <-]. eexists; split; [done|]. all_succeed.
  - intros [= <- <-]. eexists; split; [done|]. eexists [], _.
    split; [done|]. split; [apply Forall_nil_2|done].
Qed.

Lemma for_loop_evaluations x step_size n j mem r mem' :
  for_loop (round x step_size) n j mem = (r, mem') ->
  exists calls,
    evaluations mem' = evaluations mem ++ calls /\
    match r with
    | Some _ => Forall (fun p => is_Some (functor p)) calls
    | None => exists earlier p, calls = earlier ++ [p] /\
                Forall (fun p => is_Some (functor p)) earlier /\ functor p = None
    end.
Proof.
  revert j mem. induction n as [|n IH]; intros j mem; cbn [for_loop].
  { intros [= <- <-]. exists []. now rewrite app_nil_r. }
  unfold bind.
  destruct (round x step_size j mem) as [[[]|] mem1] eqn:Hround.
  - apply iteration_evaluations in Hround as (calls1 & Hev1 & Hok1).
    intros (calls2 & Hev2 & Hr)%IH. exists (calls1 ++ calls2).
    split; [now rewrite Hev2, Hev1, app_assoc|].
    destruct r as [[]|].
    + now apply Forall_app.
    + destruct Hr as (earlier & p & -> & Hok2 & Hp).
      exists (calls1 ++ earlier), p. rewrite app_assoc.
      split; [done|]. split; [now apply Forall_app|done].
  - intros [= <- <-]. now apply iteration_evaluations in Hround.
Qed.

End Loop.

Section Columns.

Variable DYNAMIC : Z.
Variable targs : TemplateArgs.
Variable functor : CostFunctor.
Variable residuals_at_eval_point : list double.
Variable relative_step_size : double.
Variables num_residuals parameter_block_index parameter_block_size : Z.

Let k := target_block DYNAMIC targs parameter_block_index.
Let v := parameter_jacobian DYNAMIC targs num_residuals parameter_block_size.
Let round := iteration DYNAMIC targs functor residuals_at_eval_point
               num_residuals parameter_block_index parameter_block_size.
Let slope := finite_difference scaled_difference (kMethod targs) functor
               residuals_at_eval_point relative_step_size.

(** A round that runs to its end has written the scaled differences to
    column [j] and nothing to the other columns. *)
Lemma iteration_jacobian x j mem mem1 :
  x = take (cols v) (parameters mem !!! k) ->
  cols v <= length (parameters mem !!! k) ->
  j < cols v ->
  rows v * cols v <= length (jacobian mem) ->
  round x (step_sizes relative_step_size x) j mem = (Some tt, mem1) ->
  length (jacobian mem1) = length (jacobian mem) /\
  (forall i, i < rows v ->
     slope (parameters mem) k i j = Some (coeff v (jacobian mem1) i j)) /\
  (forall i j', i < rows v -> j' < cols v -> j' <> j ->
     coeff v (jacobian mem1) i j' = coeff v (jacobian mem) i j').
Proof.
  intros Hx Hblock Hj Hlen. subst round slope. rewrite iteration_eq. fold k v.
  assert (Hxj : x !!! j = (parameters mem !!! k) !!! j)
    by (subst x; now apply lookup_total_take_lt).
  assert (Hdelta : delta_of (step_sizes relative_step_size x) j
                   = std_max (sqrt epsilon)
                       (relative_step_size * abs ((parameters mem !!! k) !!! j))%float).
  { rewrite delta_of_step_sizes by (subst x; rewrite length_take_le; lia).
    now rewrite Binary64.mul_comm, Hxj. }
  unfold finite_difference. rewrite Hxj, Hdelta.
  set (delta := std_max _ _). set (x_j := (parameters mem !!! k) !!! j).
  destruct (functor _) as [f_plus|]; [|done].
  destruct (kMethod targs).
  - rewrite with_coordinate_twice.
    destruct (functor _) as [f_minus|]; [|done]. intros [= <-]. cbn [jacobian parameters].
    split; [now rewrite !col_update_length|]. split.
    + intros i Hi. unfold scaled_difference.
      now rewrite !coeff_col_update_same by (rewrite ?col_update_length; lia).
    + intros i j' Hi Hj' Hne.
      now rewrite !coeff_col_update_other by done.
  - intros [= <-]. cbn [jacobian parameters].
    split; [now rewrite !col_update_length|]. split.
    + intros i Hi. unfold scaled_difference.
      now rewrite !coeff_col_update_same by (rewrite ?col_update_length; lia).
    + intros i j' Hi Hj' Hne.
      now rewrite !coeff_col_update_other by done.
Qed.

(** The rounds for coordinates [j], ..., [j + n - 1], when all of them run
    to their end. *)
Lemma for_loop_jacobian x n j mem mem' :
  x = take (cols v) (parameters mem !!! k) ->
  cols v <= length (parameters mem !!! k) ->
  j + n <= cols v ->
  rows v * cols v <= length (jacobian mem) ->
  for_loop (round x (step_sizes relative_step_size x)) n j mem = (Some tt, mem') ->
  length (jacobian mem') = length (jacobian mem) /\
  (forall i j', i < rows v -> j <= j' < j + n ->
     slope (parameters mem) k i j' = Some (coeff v (jacobian mem') i j')) /\
  (forall i j', i < rows v -> j' < j ->
     coeff v (jacobian mem') i j' = coeff v (jacobian mem) i j').
Proof.
  revert j mem. induction n as [|n IH]; intros j mem Hx Hblock Hn Hlen;
    cbn [for_loop].
  { intros [= <-]. split; [done|]. split; [lia|done]. }
  unfold bind.
  destruct (round x _ j mem) as [[[]|] mem1] eqn:Hround; [|done].
  pose proof Hround as Hp.
  apply (iteration_parameters DYNAMIC targs functor residuals_at_eval_point
           num_residuals parameter_block_index parameter_block_size) in Hp;
    [|exact Hx|change (j < cols v); lia].
  apply iteration_jacobian in Hround as (Hlen1 & Hcol & Hothers);
    [|done|done|lia|done].
  intros Hloop. apply IH in Hloop as (Hlen' & Hcols & Hbefore);
    [|now rewrite Hp|now rewrite Hp|lia|lia].
  split; [lia|]. split.
  - intros i j' Hi Hj'. destruct (decide (j' = j)) as [->|Hne].
    + rewrite Hbefore by lia. now apply Hcol.
    + rewrite <- Hp. apply Hcols; [done|lia].
  - intros i j' Hi Hj'. rewrite Hbefore by lia. apply Hothers; [done|lia..].
Qed.

End Columns.

(** ** The call *)

Lemma NumericDiff_Returned DYNAMIC targs functor r0 rel nr pbi pbs mem b mem' :
  NumericDiff DYNAMIC targs functor r0 rel nr pbi pbs mem = Returned b mem' ->
  EvaluateJacobianForParameterBlock DYNAMIC targs functor r0 rel nr pbi pbs mem
  = (b, mem').
Proof.
  unfold NumericDiff. destruct (kParameterBlockSize targs =? 0)%Z; [done|].
  destruct (EvaluateJacobianForParameterBlock _ _ _ _ _ _ _ _ _) as [b1 mem1].
  now intros [= -> ->].
Qed.

Lemma EvaluateJacobianForParameterBlock_loop
    DYNAMIC targs functor r0 rel nr pbi pbs mem b mem' :
  EvaluateJacobianForParameterBlock DYNAMIC targs functor r0 rel nr pbi pbs mem
  = (b, mem') ->
  for_loop
    (iteration DYNAMIC targs functor r0 nr pbi pbs
       (x_copy DYNAMIC targs pbi pbs mem)
       (step_sizes rel (x_copy DYNAMIC targs pbi pbs mem)))
    (Z.to_nat (parameter_block_size_internal DYNAMIC targs pbs)) 0 mem
  = (if b then Some tt else None, mem').
Proof.
  unfold EvaluateJacobianForParameterBlock.
  destruct (for_loop _ _ _ _) as [[[]|] mem1]; now intros [= <- <-].
Qed.

(** C1: after a call that returns true, for every residual i and every
    coordinate j of the block, with delta = max(sqrt(epsilon),
    relative_step_size * |x_j|), coefficient (i, j) of the jacobian holds the
    finite difference of residual i in coordinate j: (f(x + delta e_j) - f(x))
    divided by delta for FORWARD, with f(x) the residuals handed in, and
    (f(x + delta e_j) - f(x - delta e_j)) divided by 2 delta for CENTRAL,
    where f is the functor with only coordinate j of the target block
    changed.  The division is the scaling of the column by 1 / divisor:
    by 1 / delta, and by (1 / delta) / 2 for CENTRAL. *)
Theorem jacobian_holds_scaled_differences
    DYNAMIC targs functor r0 rel nr pbi pbs mem mem' i j :
  NumericDiff DYNAMIC targs functor r0 rel nr pbi pbs mem = Returned true mem' ->
  cols (parameter_jacobian DYNAMIC targs nr pbs)
    <= length (parameters mem !!! target_block DYNAMIC targs pbi) ->
  rows (parameter_jacobian DYNAMIC targs nr pbs)
    * cols (parameter_jacobian DYNAMIC targs nr pbs) <= length (jacobian mem) ->
  i < rows (parameter_jacobian DYNAMIC targs nr pbs) ->
  j < cols (parameter_jacobian DYNAMIC targs nr pbs) ->
  finite_difference scaled_difference (kMethod targs) functor r0 rel
    (parameters mem) (target_block DYNAMIC targs pbi) i j
  = Some (coeff (parameter_jacobian DYNAMIC targs nr pbs) (jacobian mem') i j).
Proof.
  intros Hcall%NumericDiff_Returned%EvaluateJacobianForParameterBlock_loop
    Hblock Hlen Hi Hj.
  apply for_loop_jacobian in Hcall as (_ & Hcols & _); [|done|done|done|done].
  apply Hcols; [done|]. split; [lia|exact Hj].
Qed.

Lemma jacobian_holds_scaled_differences_witness :
  finite_difference scaled_difference FORWARD Samples.quadratic [4; 6]%float
    0x1p-20%float [[2; 3]%float] 0 1 0
  = Some 0x1.8p+1%float.
Proof.
  apply (jacobian_holds_scaled_differences Samples.DYNAMIC
           (Samples.static_args FORWARD 2 2) Samples.quadratic [4; 6]%float
           0x1p-20%float 2 0 2 (Samples.memory [[2; 3]%float] 4)
           {| parameters := [[2; 3]%float];
              jacobian := [0x1.000008p+2; 0; 0x1.8p+1; 0x1p+1]%float;
              evaluations :=
                [[[0x1.00001p+1; 3]%float]; [[2; 0x1.800018p+1]%float]] |}
           1 0).
  - vm_compute. reflexivity.
  - vm_compute. lia.
  - vm_compute. lia.
  - vm_compute. lia.
  - vm_compute. lia.
Defined.

(** C2 at a failing input: the functor fails at the first forward point.  The
    call returns false and coordinate 0 of the block is left at x + delta =
    1 + 0.5, not at 1: the early [return false] comes before the line that
    restores [x_plus_delta(j)]. *)
Theorem forward_failure_leaves_coordinate_perturbed :
  NumericDiff Samples.DYNAMIC (Samples.static_args FORWARD 1 1) Samples.failing
    [0%float] 0.5%float 1 0 1 (Samples.memory [[1%float]] 1)
  = Returned false
      {| parameters := [[1.5%float]];
         jacobian := [0%float];
         evaluations := [[[1.5%float]]] |}.
Proof. vm_compute. reflexivity. Qed.



(** C4: a call that returns true leaves every parameter block as it found
    it. *)
Theorem parameters_unchanged_on_success
    DYNAMIC targs functor r0 rel nr pbi pbs mem mem' :
  NumericDiff DYNAMIC targs functor r0 rel nr pbi pbs mem = Returned true mem' ->
  parameters mem' = parameters mem.
Proof.
  intros Hcall%NumericDiff_Returned%EvaluateJacobianForParameterBlock_loop.
  apply for_loop_parameters in Hcall; [done|done|lia].
Qed.

Lemma parameters_unchanged_on_success_witness :
  [[2; 3]%float] = parameters (Samples.memory [[2; 3]%float] 4).
Proof.
  apply (parameters_unchanged_on_success Samples.DYNAMIC
           (Samples.static_args CENTRAL 2 2) Samples.quadratic [4; 6]%float
           0x1p-20%float 2 0 2 (Samples.memory [[2; 3]%float] 4)
           {| parameters := [[2; 3]%float];
              jacobian := [4; 0; 3; 2]%float;
              evaluations :=
                [[[0x1.00001p+1; 3]%float]; [[0x1.ffffep+0; 3]%float];
                 [[2; 0x1.800018p+1]%float]; [[2; 0x1.7fffe8p+1]%float]] |}).
  vm_compute. reflexivity.
Defined.

(** C5: the call returns true exactly when every call of the functor made
    during it succeeded; when it returns false, the call of the functor that
    failed is the last one made, and the ones before it succeeded. *)
Theorem returns_true_iff_every_evaluation_succeeded
    DYNAMIC targs functor r0 rel nr pbi pbs mem b mem' :
  NumericDiff DYNAMIC targs functor r0 rel nr pbi pbs mem = Returned b mem' ->
  exists calls,
    evaluations mem' = evaluations mem ++ calls /\
    (b = true <-> Forall (fun p => is_Some (functor p)) calls) /\
    (b = false ->
     exists earlier p,
       calls = earlier ++ [p] /\
       Forall (fun p => is_Some (functor p)) earlier /\ functor p = None).
Proof.
  intros Hcall%NumericDiff_Returned%EvaluateJacobianForParameterBlock_loop.
  apply for_loop_evaluations in Hcall as (calls & Hev & Hcalls).
  exists calls. split; [exact Hev|]. destruct b.
  - split; [now split|done].
  - split; [|now intros _].
    destruct Hcalls as (earlier & p & -> & _ & Hp).
    split; [done|]. intros [_ Hlast]%Forall_app.
    apply Forall_cons in Hlast as [[r Hr] _]. congruence.
Qed.

Lemma returns_true_iff_every_evaluation_succeeded_witness :
  exists calls,
    [[[1.875%float]]; [[0.625%float]]] = [] ++ calls /\
    (false = true <->
     Forall (fun p => is_Some (Samples.fails_below_one p)) calls) /\
    (false = false ->
     exists earlier p,
       calls = earlier ++ [p] /\
       Forall (fun p => is_Some (Samples.fails_below_one p)) earlier /\
       Samples.fails_below_one p = None).
Proof.
  apply (returns_true_iff_every_evaluation_succeeded Samples.DYNAMIC
           (Samples.static_args CENTRAL 1 1) Samples.fails_below_one [0%float]
           0.5%float 1 0 1 (Samples.memory [[1.25%float]] 1) false
           {| parameters := [[0.625%float]];
              jacobian := [1.875%float];
              evaluations := [[[1.875%float]]; [[0.625%float]]] |}).
  vm_compute. reflexivity.
Defined.

(** C6: the call is fatal exactly when the block size is the template
    constant 0: the specialisation logs at FATAL and nothing is returned,
    whatever the arguments; with any other constant the call returns. *)
Theorem static_zero_size_is_fatal
    DYNAMIC targs functor r0 rel nr pbi pbs mem :
  (exists message,
     NumericDiff DYNAMIC targs functor r0 rel nr pbi pbs mem = Fatal message)
  <-> kParameterBlockSize targs = 0%Z.
Proof.
  unfold NumericDiff.
  destruct (Z.eqb_spec (kParameterBlockSize targs) 0) as [Hzero|Hnonzero].
  - split; [done|]. intros _. now eexists.
  - destruct (EvaluateJacobianForParameterBlock _ _ _ _ _ _ _ _ _).
    split; [now intros [message ?]|done].
Qed.

(** C8: with CENTRAL, the outcome of the call (the boolean, the jacobian
    and the rest of memory) is the same whatever residuals_at_eval_point
    holds. *)
Theorem central_ignores_residuals_at_eval_point
    DYNAMIC targs functor r0 r0' rel nr pbi pbs mem :
  kMethod targs = CENTRAL ->
  NumericDiff DYNAMIC targs functor r0 rel nr pbi pbs mem
  = NumericDiff DYNAMIC targs functor r0' rel nr pbi pbs mem.
Proof.
  intros Hcentral. unfold NumericDiff, EvaluateJacobianForParameterBlock.
  rewrite (for_loop_ext (iteration DYNAMIC targs functor r0 nr pbi pbs _ _)
             (iteration DYNAMIC targs functor r0' nr pbi pbs
                (x_copy DYNAMIC targs pbi pbs mem)
                (step_sizes rel (x_copy DYNAMIC targs pbi pbs mem)))); [done|].
  intros j mem1. unfold iteration. now rewrite Hcentral.
Qed.

Lemma central_ignores_residuals_at_eval_point_witness :
  NumericDiff Samples.DYNAMIC (Samples.static_args CENTRAL 2 2) Samples.quadratic
    [4; 6]%float 0x1p-20%float 2 0 2 (Samples.memory [[2; 3]%float] 4)
  = NumericDiff Samples.DYNAMIC (Samples.static_args CENTRAL 2 2) Samples.quadratic
      [7; 7; 7]%float 0x1p-20%float 2 0 2 (Samples.memory [[2; 3]%float] 4).
Proof.
  apply (central_ignores_residuals_at_eval_point Samples.DYNAMIC
           (Samples.static_args CENTRAL 2 2)).
  reflexivity.
Defined.

(** C9: with a DYNAMIC block size and a run-time size of 0 (and DYNAMIC not
    itself 0, so that the primary template is taken), the call is not fatal:
    it returns true with memory as it was, the jacobian untouched and the
    functor never called. *)
Theorem dynamic_zero_size_returns_true
    DYNAMIC targs functor r0 rel nr pbi mem :
  DYNAMIC <> 0%Z ->
  kParameterBlockSize targs = DYNAMIC ->
  NumericDiff DYNAMIC targs functor r0 rel nr pbi 0 mem = Returned true mem.
Proof.
  intros Hdyn Hsize.
  unfold NumericDiff, EvaluateJacobianForParameterBlock,
    parameter_block_size_internal.
  rewrite Hsize, Z.eqb_refl. cbn.
  now destruct (Z.eqb_spec DYNAMIC 0).
Qed.

Lemma dynamic_zero_size_returns_true_witness :
  NumericDiff Samples.DYNAMIC (Samples.dynamic_args FORWARD) Samples.failing
    [] 0x1p-20%float 2 0 0 (Samples.memory [[]] 0)
  = Returned true (Samples.memory [[]] 0).
Proof.
  apply (dynamic_zero_size_returns_true Samples.DYNAMIC
           (Samples.dynamic_args FORWARD)).
  - vm_compute. discriminate.
  - reflexivity.
Defined.

(** C10: whatever the relative step size and the coordinates are, the delta
    of coordinate j is at least sqrt(epsilon), which is above zero; delta and
    2 * delta are above zero, and delta does not compare equal to zero: the
    scaling of the column does not divide by zero. *)
Theorem delta_strictly_positive (rel : double) (x : list double) (j : nat) :
  (min_step_size <=? delta_of (step_sizes rel x) j)%float = true /\
  (0 <? min_step_size)%float = true /\
  (0 <? delta_of (step_sizes rel x) j)%float = true /\
  (0 <? 2 * delta_of (step_sizes rel x) j)%float = true /\
  (delta_of (step_sizes rel x) j =? 0)%float = false.
Proof.
  split; [now apply std_max_lower_bound|]. split; [done|].
  assert (Hclass :
    Prim2SF (delta_of (step_sizes rel x) j) = S754_infinity false \/
    exists m e, Prim2SF (delta_of (step_sizes rel x) j) = S754_finite false m e).
  { destruct (delta_of_cases (step_sizes rel x) j) as [->|Habove].
    - right. rewrite Binary64.Prim2SF_min_step_size. now eexists _, _.
    - now apply Binary64.above_min_step_size. }
  destruct (Binary64.positive_above_zero _ Hclass) as [Hpos Htwice].
  split; [exact Hpos|]. split; [exact Htwice|].
  rewrite FloatAxioms.eqb_spec. change (Prim2SF 0) with (S754_zero false).
  now destruct Hclass as [->|(m & e & ->)].
Qed.

(** ** Further properties of the call *)

(** *** The ways out of a round that fails *)

Section Failure.

Variable DYNAMIC : Z.
Variable targs : TemplateArgs.
Variable functor : CostFunctor.
Variable residuals_at_eval_point : list double.
Variable relative_step_size : double.
Variables num_residuals parameter_block_index parameter_block_size : Z.

Let k := target_block DYNAMIC targs parameter_block_index.
Let v := parameter_jacobian DYNAMIC targs num_residuals parameter_block_size.
Let N := Z.to_nat (parameter_block_size_internal DYNAMIC targs parameter_block_size).
Let round := iteration DYNAMIC targs functor residuals_at_eval_point
               num_residuals parameter_block_index parameter_block_size.

(** A round that returns false has left coordinate [j] at the point where
    the functor failed. *)
Lemma iteration_failure x step_size j mem mem1 :
  round x step_size j mem = (None, mem1) ->
  exists a,
    (a = (x !!! j + delta_of step_size j)%float \/
     kMethod targs = CENTRAL /\ a = (x !!! j - delta_of step_size j)%float) /\
    functor (with_coordinate k j a (parameters mem)) = None /\
    parameters mem1 = with_coordinate k j a (parameters mem).
Proof.
  subst round. rewrite iteration_eq. fold k v.
  destruct (functor _) as [f_plus|] eqn:Hplus.
  - destruct (kMethod targs) eqn:Hmethod; [|done].
    rewrite with_coordinate_twice.
    destruct (functor (with_coordinate k j (x !!! j - _)%float _))
      as [f_minus|] eqn:Hminus; [done|].
    intros [= <-]. eexists. split; [right; split; reflexivity|]. now split.
  - intros [= <-]. eexists. split; [left; reflexivity|]. now split.
Qed.

Lemma for_loop_failure x step_size n j mem mem' :
  x = take N (parameters mem !!! k) -> j + n <= N ->
  for_loop (round x step_size) n j mem = (None, mem') ->
  exists j' a,
    j' < N /\
    (a = (x !!! j' + delta_of step_size j')%float \/
     kMethod targs = CENTRAL /\ a = (x !!! j' - delta_of step_size j')%float) /\
    functor (with_coordinate k j' a (parameters mem)) = None /\
    parameters mem' = with_coordinate k j' a (parameters mem).
Proof.
  revert j mem. induction n as [|n IH]; intros j mem Hx Hn; cbn [for_loop].
  { done. }
  unfold bind.
  destruct (round x step_size j mem) as [[[]|] mem1] eqn:Hround.
  - apply (iteration_parameters DYNAMIC targs functor residuals_at_eval_point
             num_residuals parameter_block_index parameter_block_size)
      in Hround as Hp; [|done|fold N; lia].
    intros Hloop. apply IH in Hloop; [|now rewrite Hp|lia].
    now rewrite Hp in Hloop.
  - intros [= <-]. apply iteration_failure in Hround as (a & Ha & Hfail & Hp).
    exists j, a. split; [lia|done].
Qed.

End Failure.

Lemma with_coordinate_shape k j a (blocks : ParameterBlocks) :
  length (with_coordinate k j a blocks) = length blocks /\
  forall k',
    length (with_coordinate k j a blocks !!! k') = length (blocks !!! k') /\
    (k' <> k -> with_coordinate k j a blocks !!! k' = blocks !!! k').
Proof.
  unfold with_coordinate. split; [apply length_alter|]. intros k'.
  destruct (decide (k' = k)) as [->|Hne].
  - split; [|done]. destruct (decide (k < length blocks)) as [Hlt|Hge].
    + rewrite list_lookup_total_alter_eq by done. apply length_insert.
    + rewrite (list_alter_ext _ id blocks blocks k), list_alter_id; [done..| |done].
      intros blk Hblk. apply lookup_lt_Some in Hblk. lia.
  - now rewrite list_lookup_total_alter_ne by done.
Qed.

(** A call that returns false has left one coordinate of the target block
    perturbed, and all else in the parameter blocks as it was: the coordinate
    j whose evaluation failed holds x_j + delta_j, or x_j - delta_j when it
    was the backward evaluation of CENTRAL that failed. *)
Theorem failure_leaves_one_coordinate_perturbed
    DYNAMIC targs functor r0 rel nr pbi pbs mem mem' :
  NumericDiff DYNAMIC targs functor r0 rel nr pbi pbs mem = Returned false mem' ->
  exists j a,
    j < Z.to_nat (parameter_block_size_internal DYNAMIC targs pbs) /\
    (a = (x_copy DYNAMIC targs pbi pbs mem !!! j
          + delta_of (step_sizes rel (x_copy DYNAMIC targs pbi pbs mem)) j)%float \/
     kMethod targs = CENTRAL /\
     a = (x_copy DYNAMIC targs pbi pbs mem !!! j
          - delta_of (step_sizes rel (x_copy DYNAMIC targs pbi pbs mem)) j)%float) /\
    functor (with_coordinate (target_block DYNAMIC targs pbi) j a (parameters mem))
    = None /\
    parameters mem'
    = with_coordinate (target_block DYNAMIC targs pbi) j a (parameters mem).
Proof.
  intros Hcall%NumericDiff_Returned%EvaluateJacobianForParameterBlock_loop.
  apply for_loop_failure in Hcall; [done|done|lia].
Qed.

Lemma failure_leaves_one_coordinate_perturbed_witness :
  exists j a,
    Samples.fails_below_one (with_coordinate 0 j a [[1.25%float]]) = None /\
    [[0.625%float]] = with_coordinate 0 j a [[1.25%float]].
Proof.
  destruct (failure_leaves_one_coordinate_perturbed Samples.DYNAMIC
              (Samples.static_args CENTRAL 1 1) Samples.fails_below_one [0%float]
              0.5%float 1 0 1 (Samples.memory [[1.25%float]] 1)
              {| parameters := [[0.625%float]];
                 jacobian := [1.875%float];
                 evaluations := [[[1.875%float]]; [[0.625%float]]] |})
    as (j & a & _ & _ & Hfail & Hp).
  - vm_compute. reflexivity.
  - exists j, a. split; [exact Hfail|exact Hp].
Defined.

(** Whatever the call returns, it has written to the target block only:
    the number of blocks and the length of each block are as before, and
    every other block holds what it held. *)
Theorem only_target_block_is_written
    DYNAMIC targs functor r0 rel nr pbi pbs mem b mem' :
  NumericDiff DYNAMIC targs functor r0 rel nr pbi pbs mem = Returned b mem' ->
  length (parameters mem') = length (parameters mem) /\
  forall k',
    length (parameters mem' !!! k') = length (parameters mem !!! k') /\
    (k' <> target_block DYNAMIC targs pbi ->
     parameters mem' !!! k' = parameters mem !!! k').
Proof.
  intros Hcall%NumericDiff_Returned%EvaluateJacobianForParameterBlock_loop.
  destruct b.
  - apply for_loop_parameters in Hcall; [|done|lia]. now rewrite Hcall.
  - apply for_loop_failure in Hcall as (j & a & _ & _ & _ & ->); [|done|lia].
    apply with_coordinate_shape.
Qed.

Lemma only_target_block_is_written_witness :
  length [[0.625%float]; [7%float]] = length [[1.25%float]; [7%float]] /\
  forall k',
    length ([[0.625%float]; [7%float]] !!! k')
    = length ([[1.25%float]; [7%float]] !!! k') /\
    (k' <> 0 -> [[0.625%float]; [7%float]] !!! k' = [[1.25%float]; [7%float]] !!! k').
Proof.
  apply (only_target_block_is_written Samples.DYNAMIC
           (Samples.static_args CENTRAL 1 1) Samples.fails_below_one [0%float]
           0.5%float 1 0 1 (Samples.memory [[1.25%float]; [7%float]] 1) false
           {| parameters := [[0.625%float]; [7%float]];
              jacobian := [1.875%float];
              evaluations := [[[1.875%float]; [7%float]];
                              [[0.625%float]; [7%float]]] |}).
  vm_compute. reflexivity.
Defined.

(** A functor that never fails makes the call return true, whenever the
    primary template is the one instantiated. *)
Theorem total_functor_returns_true
    DYNAMIC targs functor r0 rel nr pbi pbs mem :
  (forall p, is_Some (functor p)) ->
  kParameterBlockSize targs <> 0%Z ->
  exists mem',
    NumericDiff DYNAMIC targs functor r0 rel nr pbi pbs mem = Returned true mem'.
Proof.
  intros Htotal Hsize. unfold NumericDiff.
  destruct (Z.eqb_spec (kParameterBlockSize targs) 0) as [?|_]; [done|].
  destruct (EvaluateJacobianForParameterBlock _ _ _ _ _ _ _ _ _)
    as [b mem'] eqn:Hcall.
  exists mem'. destruct b; [done|].
  apply EvaluateJacobianForParameterBlock_loop, for_loop_evaluations in Hcall
    as (calls & _ & earlier & p & _ & _ & Hp).
  destruct (Htotal p) as [r Hr]. congruence.
Qed.

Lemma total_functor_returns_true_witness :
  exists mem',
    NumericDiff Samples.DYNAMIC (Samples.static_args CENTRAL 2 2) Samples.quadratic
      [4; 6]%float 0x1p-20%float 2 0 2 (Samples.memory [[2; 3]%float] 4)
    = Returned true mem'.
Proof.
  apply (total_functor_returns_true Samples.DYNAMIC
           (Samples.static_args CENTRAL 2 2) Samples.quadratic).
  - intros p. eexists. reflexivity.
  - vm_compute. discriminate.
Defined.

(** *** The calls of the functor, in order *)

Lemma length_flat_map_const {A B} (f : A -> list B) (c : nat) (l : list A) :
  (forall a, length (f a) = c) -> length (flat_map f l) = length l * c.
Proof.
  intros Hf. induction l as [|a l IH]; cbn; [done|].
  rewrite length_app, Hf, IH. lia.
Qed.

Section Trace.

Variable DYNAMIC : Z.
Variable targs : TemplateArgs.
Variable functor : CostFunctor.
Variable residuals_at_eval_point : list double.
Variable relative_step_size : double.
Variables num_residuals parameter_block_index parameter_block_size : Z.

Let k := target_block DYNAMIC targs parameter_block_index.
Let v := parameter_jacobian DYNAMIC targs num_residuals parameter_block_size.
Let N := Z.to_nat (parameter_block_size_internal DYNAMIC targs parameter_block_size).
Let round := iteration DYNAMIC targs functor residuals_at_eval_point
               num_residuals parameter_block_index parameter_block_size.

Lemma iteration_trace x step_size j mem r mem1 :
  round x step_size j mem = (r, mem1) ->
  exists calls,
    evaluations mem1 = evaluations mem ++ calls /\
    calls `prefix_of`
      perturbed_points (kMethod targs) k x step_size (parameters mem) j /\
    (is_Some r ->
     calls = perturbed_points (kMethod targs) k x step_size (parameters mem) j).
Proof.
  subst round. rewrite iteration_eq. fold k v. unfold perturbed_points.
  rewrite with_coordinate_twice.
  destruct (functor _) as [f_plus|].
  - destruct (kMethod targs).
    + destruct (functor (with_coordinate k j (x !!! j - _)%float _))
        as [f_minus|]; intros [= <- <-]; cbn; rewrite <- app_assoc;
        (eexists; split; [done|]; split; [done|]; try done).
    + intros [= <- <-]. eexists. split; [done|]. now split.
  - intros [= <- <-]. eexists. split; [done|]. split.
    + destruct (kMethod targs); [now eexists [_]|done].
    + now intros [? ?].
Qed.

Lemma for_loop_trace x step_size n j mem r mem' :
  x = take N (parameters mem !!! k) -> j + n <= N ->
  for_loop (round x step_size) n j mem = (r, mem') ->
  exists calls,
    evaluations mem' = evaluations mem ++ calls /\
    calls `prefix_of`
      flat_map (perturbed_points (kMethod targs) k x step_size (parameters mem))
               (seq j n) /\
    (is_Some r ->
     calls = flat_map (perturbed_points (kMethod targs) k x step_size
                         (parameters mem)) (seq j n)).
Proof.
  revert j mem. induction n as [|n IH]; intros j mem Hx Hn; cbn [for_loop].
  { intros [= <- <-]. exists []. now rewrite app_nil_r. }
  unfold bind. cbn [seq flat_map].
  destruct (round x step_size j mem) as [[[]|] mem1] eqn:Hround.
  - apply (iteration_parameters DYNAMIC targs functor residuals_at_eval_point
             num_residuals parameter_block_index parameter_block_size)
      in Hround as Hp; [|done|fold N; lia].
    apply iteration_trace in Hround as (calls1 & Hev1 & _ & Hall1).
    rewrite <- Hall1 by done.
    intros (calls2 & Hev2 & Hpre2 & Hall2)%IH; [|now rewrite Hp|lia].
    rewrite Hp in Hpre2, Hall2. exists (calls1 ++ calls2).
    split; [now rewrite Hev2, Hev1, app_assoc|].
    split; [now apply prefix_app|]. intros Hr. now rewrite Hall2.
  - intros [= <- <-].
    apply iteration_trace in Hround as (calls1 & Hev1 & Hpre1 & _).
    exists calls1. split; [done|]. split; [now apply prefix_app_r|].
    now intros [? ?].
Qed.

End Trace.

(** The functor is called at the perturbed points only and in the order of
    the coordinates: at x + delta_j e_j and, for CENTRAL, then at
    x - delta_j e_j, each time with all the other coordinates at their
    values on entry.  A call that returns true has made all these calls, one
    a coordinate for FORWARD and two for CENTRAL; a call that returns false
    has made a first part of them. *)
Theorem functor_called_at_the_perturbed_points
    DYNAMIC targs functor r0 rel nr pbi pbs mem b mem' :
  NumericDiff DYNAMIC targs functor r0 rel nr pbi pbs mem = Returned b mem' ->
  exists calls,
    evaluations mem' = evaluations mem ++ calls /\
    calls `prefix_of`
      flat_map
        (perturbed_points (kMethod targs) (target_block DYNAMIC targs pbi)
           (x_copy DYNAMIC targs pbi pbs mem)
           (step_sizes rel (x_copy DYNAMIC targs pbi pbs mem)) (parameters mem))
        (seq 0 (Z.to_nat (parameter_block_size_internal DYNAMIC targs pbs))) /\
    (b = true ->
     calls
     = flat_map
         (perturbed_points (kMethod targs) (target_block DYNAMIC targs pbi)
            (x_copy DYNAMIC targs pbi pbs mem)
            (step_sizes rel (x_copy DYNAMIC targs pbi pbs mem)) (parameters mem))
         (seq 0 (Z.to_nat (parameter_block_size_internal DYNAMIC targs pbs))) /\
     length calls
     = Z.to_nat (parameter_block_size_internal DYNAMIC targs pbs)
       * match kMethod targs with CENTRAL => 2 | FORWARD => 1 end).
Proof.
  intros Hcall%NumericDiff_Returned%EvaluateJacobianForParameterBlock_loop.
  apply for_loop_trace in Hcall as (calls & Hev & Hpre & Hall); [|done|lia].
  exists calls. split; [done|]. split; [done|]. intros ->.
  rewrite Hall by done. split; [done|].
  rewrite (length_flat_map_const _
             (match kMethod targs with CENTRAL => 2 | FORWARD => 1 end)).
  - now rewrite length_seq.
  - intros j. unfold perturbed_points. now destruct (kMethod targs).
Qed.

Lemma functor_called_at_the_perturbed_points_witness :
  exists calls,
    [[[0x1.00001p+1; 3]%float]; [[0x1.ffffep+0; 3]%float];
     [[2; 0x1.800018p+1]%float]; [[2; 0x1.7fffe8p+1]%float]]
    = [] ++ calls /\
    length calls = 4.
Proof.
  destruct (functor_called_at_the_perturbed_points Samples.DYNAMIC
              (Samples.static_args CENTRAL 2 2) Samples.quadratic [4; 6]%float
              0x1p-20%float 2 0 2 (Samples.memory [[2; 3]%float] 4) true
              {| parameters := [[2; 3]%float];
                 jacobian := [4; 0; 3; 2]%float;
                 evaluations :=
                   [[[0x1.00001p+1; 3]%float]; [[0x1.ffffep+0; 3]%float];
                    [[2; 0x1.800018p+1]%float]; [[2; 0x1.7fffe8p+1]%float]] |})
    as (calls & Hev & _ & Hall).
  - vm_compute. reflexivity.
  - exists calls. split; [exact Hev|]. now destruct Hall as [_ ->].
Defined.

(** *** The jacobian buffer outside the block *)

Lemma col_update_outside v j f buf p :
  j < cols v -> rows v * cols v <= p -> col_update v j f buf !!! p = buf !!! p.
Proof.
  intros Hj Hp. unfold col_update.
  apply (foldl_insert_other (fun i => coeff_index v i j)).
  intros i [_ Hi]%elem_of_seq. pose proof (coeff_index_lt v i j Hi Hj). lia.
Qed.

Section Frame.

Variable DYNAMIC : Z.
Variable targs : TemplateArgs.
Variable functor : CostFunctor.
Variable residuals_at_eval_point : list double.
Variables num_residuals parameter_block_index parameter_block_size : Z.

Let v := parameter_jacobian DYNAMIC targs num_residuals parameter_block_size.
Let round := iteration DYNAMIC targs functor residuals_at_eval_point
               num_residuals parameter_block_index parameter_block_size.

Lemma iteration_frame x step_size j mem r mem1 :
  j < cols v ->
  round x step_size j mem = (r, mem1) ->
  length (jacobian mem1) = length (jacobian mem) /\
  forall p, rows v * cols v <= p -> jacobian mem1 !!! p = jacobian mem !!! p.
Proof.
  intros Hj. subst round. rewrite iteration_eq. fold v.
  destruct (functor _) as [f_plus|]; [|now intros [= <- <-]].
  destruct (kMethod targs); [destruct (functor _) as [f_minus|]|];
    intros [= <- <-]; cbn [jacobian]; rewrite ?col_update_length;
    (split; [done|]); intros p Hp; now rewrite ?col_update_outside by done.
Qed.

Lemma for_loop_frame x step_size n j mem r mem' :
  j + n <= cols v ->
  for_loop (round x step_size) n j mem = (r, mem') ->
  length (jacobian mem') = length (jacobian mem) /\
  forall p, rows v * cols v <= p -> jacobian mem' !!! p = jacobian mem !!! p.
Proof.
  revert j mem. induction n as [|n IH]; intros j mem Hn; cbn [for_loop].
  { now intros [= <- <-]. }
  unfold bind.
  destruct (round x step_size j mem) as [[[]|] mem1] eqn:Hround.
  - apply iteration_frame in Hround as [Hlen1 Hout1]; [|lia].
    intros [Hlen Hout]%IH; [|lia]. split; [congruence|].
    intros p Hp. now rewrite Hout, Hout1.
  - intros [= <- <-]. apply iteration_frame in Hround; [done|lia].
Qed.

End Frame.

(** Whatever the call returns, it has written to the jacobian buffer inside
    the block of num_residuals * parameter_block_size doubles only: the
    buffer has the length it had and holds beyond the block what it held. *)
Theorem jacobian_writes_stay_in_block
    DYNAMIC targs functor r0 rel nr pbi pbs mem b mem' :
  NumericDiff DYNAMIC targs functor r0 rel nr pbi pbs mem = Returned b mem' ->
  length (jacobian mem') = length (jacobian mem) /\
  forall p,
    rows (parameter_jacobian DYNAMIC targs nr pbs)
    * cols (parameter_jacobian DYNAMIC targs nr pbs) <= p ->
    jacobian mem' !!! p = jacobian mem !!! p.
Proof.
  intros Hcall%NumericDiff_Returned%EvaluateJacobianForParameterBlock_loop.
  apply for_loop_frame in Hcall; [done|]. cbn. lia.
Qed.

Lemma jacobian_writes_stay_in_block_witness :
  length [0x1.000008p+2; 0; 0x1.8p+1; 0x1p+1; 0; 0]%float
  = length (replicate 6 0%float).
Proof.
  refine (proj1 (jacobian_writes_stay_in_block Samples.DYNAMIC
                   (Samples.static_args FORWARD 2 2) Samples.quadratic
                   [4; 6]%float 0x1p-20%float 2 0 2
                   (Samples.memory [[2; 3]%float] 6) true
                   {| parameters := [[2; 3]%float];
                      jacobian :=
                        [0x1.000008p+2; 0; 0x1.8p+1; 0x1p+1; 0; 0]%float;
                      evaluations :=
                        [[[0x1.00001p+1; 3]%float];
                         [[2; 0x1.800018p+1]%float]] |} _)).
  vm_compute. reflexivity.
Defined.

(** *** The layout of the jacobian *)

(** The jacobian is laid out row by row whatever the template constants
    are: the column-major map that is taken for a block of static size 1 has
    a single column, and puts coefficient (i, 0) at offset i as the row-major
    map does.  (DYNAMIC is taken not to be 1, so that a static size of 1 is a
    size of 1.) *)
Theorem jacobian_layout_is_row_major DYNAMIC targs nr pbs i j :
  DYNAMIC <> 1%Z ->
  j < cols (parameter_jacobian DYNAMIC targs nr pbs) ->
  coeff_index (parameter_jacobian DYNAMIC targs nr pbs) i j
  = i * cols (parameter_jacobian DYNAMIC targs nr pbs) + j.
Proof.
  intros Hdyn. unfold coeff_index, parameter_jacobian; cbn [order rows cols].
  destruct (Z.eqb_spec (kParameterBlockSize targs) 1) as [Hone|_]; [|done].
  unfold parameter_block_size_internal. rewrite Hone.
  destruct (Z.eqb_spec 1 DYNAMIC) as [?|_]; [congruence|]. cbn. lia.
Qed.

Lemma jacobian_layout_is_row_major_witness :
  coeff_index (parameter_jacobian Samples.DYNAMIC
                 (Samples.static_args FORWARD 2 1) 2 1) 1 0
  = 1 * cols (parameter_jacobian Samples.DYNAMIC
                (Samples.static_args FORWARD 2 1) 2 1) + 0.
Proof.
  apply (jacobian_layout_is_row_major Samples.DYNAMIC
           (Samples.static_args FORWARD 2 1) 2 1 1 0).
  - vm_compute. discriminate.
  - vm_compute. lia.
Defined.

(** *** What the jacobian buffer held on entry *)

Section Control.

Variable DYNAMIC : Z.
Variable targs : TemplateArgs.
Variable functor : CostFunctor.
Variable residuals_at_eval_point : list double.
Variables num_residuals parameter_block_index parameter_block_size : Z.

Let round := iteration DYNAMIC targs functor residuals_at_eval_point
               num_residuals parameter_block_index parameter_block_size.

(** The way a round goes, the parameter blocks it leaves and the calls it
    makes do not depend on the jacobian buffer. *)
Lemma iteration_control x step_size j mem jac r mem1 :
  round x step_size j mem = (r, mem1) ->
  exists jac1,
    round x step_size j
      {| parameters := parameters mem; jacobian := jac;
         evaluations := evaluations mem |}
    = (r, {| parameters := parameters mem1; jacobian := jac1;
             evaluations := evaluations mem1 |}).
Proof.
  subst round. rewrite !iteration_eq. cbn [parameters jacobian evaluations].
  destruct (functor _) as [f_plus|]; [|intros [= <- <-]; now eexists].
  destruct (kMethod targs); [destruct (functor _) as [f_minus|]|];
    intros [= <- <-]; now eexists.
Qed.

Lemma for_loop_control x step_size n j mem jac r mem' :
  for_loop (round x step_size) n j mem = (r, mem') ->
  exists jac',
    for_loop (round x step_size) n j
      {| parameters := parameters mem; jacobian := jac;
         evaluations := evaluations mem |}
    = (r, {| parameters := parameters mem'; jacobian := jac';
             evaluations := evaluations mem' |}).
Proof.
  revert j mem jac. induction n as [|n IH]; intros j mem jac; cbn [for_loop].
  { intros [= <- <-]. now eexists. }
  unfold bind.
  destruct (round x step_size j mem) as [[[]|] mem1] eqn:Hround;
    apply (iteration_control _ _ _ _ jac) in Hround as [jac1 ->].
  - intros Hloop. now apply (IH _ _ jac1) in Hloop.
  - intros [= <- <-]. now eexists.
Qed.

End Control.

(** The call does not read what the jacobian buffer holds on entry: with
    any other content the call returns the same boolean, leaves the same
    parameter blocks and makes the same calls of the functor; and when it
    returns true, in a buffer that holds the block, every coefficient of the
    block is the same. *)
Theorem result_independent_of_initial_jacobian
    DYNAMIC targs functor r0 rel nr pbi pbs mem jac b mem' :
  NumericDiff DYNAMIC targs functor r0 rel nr pbi pbs mem = Returned b mem' ->
  exists jac',
    NumericDiff DYNAMIC targs functor r0 rel nr pbi pbs
      {| parameters := parameters mem; jacobian := jac;
         evaluations := evaluations mem |}
    = Returned b {| parameters := parameters mem'; jacobian := jac';
                    evaluations := evaluations mem' |} /\
    (b = true ->
     cols (parameter_jacobian DYNAMIC targs nr pbs)
       <= length (parameters mem !!! target_block DYNAMIC targs pbi) ->
     rows (parameter_jacobian DYNAMIC targs nr pbs)
       * cols (parameter_jacobian DYNAMIC targs nr pbs)
       <= length (jacobian mem) `min` length jac ->
     forall i j,
       i < rows (parameter_jacobian DYNAMIC targs nr pbs) ->
       j < cols (parameter_jacobian DYNAMIC targs nr pbs) ->
       coeff (parameter_jacobian DYNAMIC targs nr pbs) jac' i j
       = coeff (parameter_jacobian DYNAMIC targs nr pbs) (jacobian mem') i j).
Proof.
  intros Hcall. pose proof Hcall as Hreturned. unfold NumericDiff in Hcall |- *.
  destruct (kParameterBlockSize targs =? 0)%Z; [done|].
  apply NumericDiff_Returned, EvaluateJacobianForParameterBlock_loop in Hreturned.
  pose proof Hreturned as Hloop.
  apply for_loop_control with (jac := jac) in Hloop as [jac' Hloop].
  exists jac'. unfold EvaluateJacobianForParameterBlock.
  change (x_copy DYNAMIC targs pbi pbs
            {| parameters := parameters mem; jacobian := jac;
               evaluations := evaluations mem |})
    with (x_copy DYNAMIC targs pbi pbs mem).
  rewrite Hloop. split; [now destruct b|].
  intros -> Hblock Hlen i j Hi Hj.
  apply for_loop_jacobian in Hreturned as (_ & Hcols & _);
    [|done|done|done|lia].
  apply for_loop_jacobian in Hloop as (_ & Hcols' & _);
    [|done|done|done|cbn [jacobian]; lia].
  cbn [parameters jacobian] in Hcols'.
  specialize (Hcols i j Hi (conj (Nat.le_0_l j) Hj)).
  specialize (Hcols' i j Hi (conj (Nat.le_0_l j) Hj)).
  congruence.
Qed.

Lemma result_independent_of_initial_jacobian_witness :
  exists jac',
    NumericDiff Samples.DYNAMIC (Samples.static_args FORWARD 2 2) Samples.quadratic
      [4; 6]%float 0x1p-20%float 2 0 2
      {| parameters := [[2; 3]%float]; jacobian := [9; 9; 9; 9; 9]%float;
         evaluations := [] |}
    = Returned true
        {| parameters := [[2; 3]%float]; jacobian := jac';
           evaluations :=
             [[[0x1.00001p+1; 3]%float]; [[2; 0x1.800018p+1]%float]] |}.
Proof.
  destruct (result_independent_of_initial_jacobian Samples.DYNAMIC
              (Samples.static_args FORWARD 2 2) Samples.quadratic [4; 6]%float
              0x1p-20%float 2 0 2 (Samples.memory [[2; 3]%float] 4)
              [9; 9; 9; 9; 9]%float true
              {| parameters := [[2; 3]%float];
                 jacobian := [0x1.000008p+2; 0; 0x1.8p+1; 0x1p+1]%float;
                 evaluations :=
                   [[[0x1.00001p+1; 3]%float]; [[2; 0x1.800018p+1]%float]] |})
    as (jac' & Hcall & _).
  - vm_compute. reflexivity.
  - exists jac'. exact Hcall.
Defined.

(** *** Static and dynamic sizes *)

Lemma foldl_ext_in {A B} (F G : B -> A -> B) (l : list A) (b : B) :
  (forall b a, a ∈ l -> F b a = G b a) -> foldl F b l = foldl G b l.
Proof.
  revert b. induction l as [|a l IH]; intros b Hext; cbn; [done|].
  rewrite Hext by now left. apply IH. intros b' a' Ha'. apply Hext. now right.
Qed.

(** Two maps that put the coefficients of column [j] at the same offsets
    assign to the column alike. *)
Lemma col_update_ext_view v v' j f buf :
  rows v = rows v' ->
  (forall i, i < rows v -> coeff_index v i j = coeff_index v' i j) ->
  col_update v j f buf = col_update v' j f buf.
Proof.
  intros Hrows Hindex. unfold col_update. rewrite <- Hrows.
  apply foldl_ext_in. intros b i [_ Hi]%elem_of_seq. now rewrite Hindex by lia.
Qed.

(** With a single column, both storage orders put coefficient (i, 0) at
    offset i. *)
Lemma coeff_index_single_column v i : cols v = 1 -> coeff_index v i 0 = i.
Proof. intros Hcols. unfold coeff_index. rewrite Hcols. destruct (order v); lia. Qed.

Lemma for_loop_ext_range (body body' : nat -> Fn unit) (n j : nat) (mem : Memory) :
  (forall j' mem, j <= j' < j + n -> body j' mem = body' j' mem) ->
  for_loop body n j mem = for_loop body' n j mem.
Proof.
  revert j mem. induction n as [|n IH]; intros j mem Hext; [done|].
  cbn [for_loop]. unfold bind. rewrite Hext by lia.
  destruct (body' j mem) as [[[]|] mem1]; [|done].
  apply IH. intros j' mem' Hj'. apply Hext. lia.
Qed.

(** An instantiation with DYNAMIC for the number of residuals, the index
    and the size of the block, given m, k and n at run time, does what the
    instantiation with the constants m, k and n does: the same boolean, the
    same jacobian, the same parameter blocks, the same calls of the functor.
    (n is not 0, for which the static instantiation is the fatal one; DYNAMIC
    is none of 0, 1, m, k and n.) *)
Theorem static_and_dynamic_instantiations_agree
    DYNAMIC method m k n functor r0 rel nr pbi pbs mem :
  DYNAMIC <> 0%Z -> DYNAMIC <> 1%Z ->
  m <> DYNAMIC -> k <> DYNAMIC -> n <> DYNAMIC -> n <> 0%Z ->
  NumericDiff DYNAMIC
    {| kMethod := method; kNumResiduals := m;
       kParameterBlock := k; kParameterBlockSize := n |}
    functor r0 rel nr pbi pbs mem
  = NumericDiff DYNAMIC
      {| kMethod := method; kNumResiduals := DYNAMIC;
         kParameterBlock := DYNAMIC; kParameterBlockSize := DYNAMIC |}
      functor r0 rel m k n mem.
Proof.
  intros Hd0 Hd1 Hm Hk Hn Hn0.
  set (static := {| kMethod := method; kNumResiduals := m;
                    kParameterBlock := k; kParameterBlockSize := n |}).
  set (dynamic := {| kMethod := method; kNumResiduals := DYNAMIC;
                     kParameterBlock := DYNAMIC; kParameterBlockSize := DYNAMIC |}).
  assert (Hsize : parameter_block_size_internal DYNAMIC static pbs = n
                  /\ parameter_block_size_internal DYNAMIC dynamic n = n).
  { unfold parameter_block_size_internal. cbn. rewrite Z.eqb_refl.
    now destruct (Z.eqb_spec n DYNAMIC). }
  assert (Hblock : target_block DYNAMIC static pbi = Z.to_nat k
                   /\ target_block DYNAMIC dynamic k = Z.to_nat k).
  { unfold target_block, parameter_block_index_internal. cbn.
    rewrite Z.eqb_refl. now destruct (Z.eqb_spec k DYNAMIC). }
  assert (Hrows : rows (parameter_jacobian DYNAMIC static nr pbs) = Z.to_nat m
                  /\ rows (parameter_jacobian DYNAMIC dynamic m n) = Z.to_nat m).
  { unfold parameter_jacobian, num_residuals_internal. cbn.
    rewrite Z.eqb_refl. now destruct (Z.eqb_spec m DYNAMIC). }
  assert (Hcols : cols (parameter_jacobian DYNAMIC static nr pbs) = Z.to_nat n
                  /\ cols (parameter_jacobian DYNAMIC dynamic m n) = Z.to_nat n).
  { unfold parameter_jacobian. cbn [cols]. now destruct Hsize as [-> ->]. }
  assert (Hview : forall j f buf,
             j < Z.to_nat n ->
             col_update (parameter_jacobian DYNAMIC static nr pbs) j f buf
             = col_update (parameter_jacobian DYNAMIC dynamic m n) j f buf).
  { intros j f buf Hj. apply col_update_ext_view; [lia|]. intros i _.
    destruct (decide (n = 1%Z)) as [->|Hne].
    - assert (j = 0) as -> by lia.
      now rewrite !coeff_index_single_column by lia.
    - unfold coeff_index. destruct Hcols as [-> ->].
      unfold parameter_jacobian. cbn [order kParameterBlockSize static dynamic].
      destruct (Z.eqb_spec n 1) as [?|_]; [done|].
      now destruct (Z.eqb_spec DYNAMIC 1). }
  unfold NumericDiff. cbn [kParameterBlockSize static dynamic].
  destruct (Z.eqb_spec n 0) as [?|_]; [done|].
  destruct (Z.eqb_spec DYNAMIC 0) as [?|_]; [done|].
  unfold EvaluateJacobianForParameterBlock, x_copy.
  destruct Hsize as [-> ->], Hblock as [Hks Hkd]. rewrite Hks, Hkd.
  erewrite for_loop_ext_range; [reflexivity|].
  intros j mem1 Hj. rewrite !iteration_eq, Hks, Hkd. cbn [kMethod static dynamic].
  destruct (functor _) as [f_plus|]; [|done]. cbn zeta.
  destruct method; [destruct (functor _) as [f_minus|]|];
    now rewrite !Hview by lia.
Qed.

Lemma static_and_dynamic_instantiations_agree_witness :
  NumericDiff Samples.DYNAMIC (Samples.static_args CENTRAL 2 1) Samples.linear
    [1; 2]%float 0.5%float 7 7 7 (Samples.memory [[1%float]] 2)
  = NumericDiff Samples.DYNAMIC (Samples.dynamic_args CENTRAL) Samples.linear
      [1; 2]%float 0.5%float 2 0 1 (Samples.memory [[1%float]] 2).
Proof.
  apply (static_and_dynamic_instantiations_agree Samples.DYNAMIC CENTRAL 2 0 1);
    vm_compute; discriminate.
Defined.

(** *** Steps that fall back on the least step *)

Module Binary64Sign.

(** Rounding keeps the sign: a negative result is no NaN only as a zero, a
    number or an infinity of sign minus, none of which is above the least
    step. *)
Lemma binary_round_aux_negative mx ex lx :
  SFltb (S754_finite false 4503599627370496 (-78))
        (binary_round_aux prec emax true mx ex lx) = false.
Proof.
  unfold binary_round_aux.
  destruct (shr_fexp prec emax mx ex lx) as [mrs1 e1].
  destruct (shr_fexp prec emax _ e1 loc_Exact) as [mrs2 e2].
  destruct (shr_m mrs2); [done| |done]. now destruct (_ <=? _)%Z.
Qed.

(** The product of an absolute value and a factor that is not above zero
    (a zero, a negative number, minus infinity or a NaN) is not above the
    least step. *)
Lemma abs_times_nonpositive (a r : double) :
  (0 <? r)%float = false -> (min_step_size <? abs a * r)%float = false.
Proof.
  rewrite !FloatAxioms.ltb_spec, mul_spec, abs_spec, Binary64.Prim2SF_min_step_size.
  change (Prim2SF 0) with (S754_zero false).
  destruct (Prim2SF r) as [sr|[|]| |[|] mr er]; try discriminate; intros _;
    destruct (Prim2SF a) as [sa|sa| |sa ma ea]; try reflexivity.
  apply binary_round_aux_negative.
Qed.

Lemma SFeqb_refl_finite s m e :
  SFeqb (S754_finite s m e) (S754_finite s m e) = true.
Proof.
  unfold SFeqb, SFcompare.
  change (IntDef.Z.compare e e) with (Z.compare e e).
  rewrite Z.compare_refl.
  change (PosDef.Pos.compare_cont Eq m m) with (Pos.compare m m).
  rewrite Pos.compare_refl. now destruct s.
Qed.

(** Only a NaN does not compare equal to itself, and the product of the
    absolute value of a NaN and any factor is a NaN. *)
Lemma abs_nan_times (a r : double) :
  (a =? a)%float = false -> (min_step_size <? abs a * r)%float = false.
Proof.
  rewrite FloatAxioms.eqb_spec, FloatAxioms.ltb_spec, mul_spec, abs_spec.
  destruct (Prim2SF a) as [sa|[|]| |sa ma ea]; try discriminate.
  - reflexivity.
  - now rewrite SFeqb_refl_finite.
Qed.

End Binary64Sign.

(** A relative step size that is not above zero (zero, negative or a NaN),
    or a coordinate that is a NaN, makes the step of the coordinate the
    least step sqrt(epsilon) exactly: [std::max] returns its first argument
    unless the second compares above it. *)
Theorem step_falls_back_on_min_step_size (rel : double) (x : list double) (j : nat) :
  (0 <? rel)%float = false \/ (x !!! j =? x !!! j)%float = false ->
  delta_of (step_sizes rel x) j = min_step_size.
Proof.
  intros Hcase. unfold delta_of, std_max.
  destruct (decide (j < length x)) as [Hj|Hj].
  - unfold step_sizes. rewrite (list_lookup_total_fmap _ _ _ Hj).
    destruct Hcase as [Hrel|Hnan].
    + now rewrite Binary64Sign.abs_times_nonpositive.
    + now rewrite Binary64Sign.abs_nan_times.
  - unfold step_sizes.
    rewrite list_lookup_total_alt, (lookup_ge_None_2 _ j)
      by (rewrite length_fmap; lia).
    reflexivity.
Qed.

Lemma step_falls_back_on_min_step_size_witness :
  delta_of (step_sizes (-1)%float [1000%float]) 0 = min_step_size.
Proof.
  apply (step_falls_back_on_min_step_size (-1)%float [1000%float] 0).
  left. vm_compute. reflexivity.
Defined.

(** *** What is read of the residuals handed in *)

Lemma col_update_ext v j f g buf :
  (forall i c, i < rows v -> f i c = g i c) ->
  col_update v j f buf = col_update v j g buf.
Proof.
  intros Hext. unfold col_update. apply foldl_ext_in.
  intros b i [_ Hi]%elem_of_seq. now rewrite Hext by lia.
Qed.

(** Of residuals_at_eval_point the call reads the first num_residuals
    entries only: two vectors that agree there give the same outcome, with
    either method. *)
Theorem residuals_at_eval_point_read_in_range
    DYNAMIC targs functor r0 r0' rel nr pbi pbs mem :
  (forall i, i < rows (parameter_jacobian DYNAMIC targs nr pbs) ->
             r0 !!! i = r0' !!! i) ->
  NumericDiff DYNAMIC targs functor r0 rel nr pbi pbs mem
  = NumericDiff DYNAMIC targs functor r0' rel nr pbi pbs mem.
Proof.
  intros Hagree. unfold NumericDiff, EvaluateJacobianForParameterBlock.
  rewrite (for_loop_ext (iteration DYNAMIC targs functor r0 nr pbi pbs _ _)
             (iteration DYNAMIC targs functor r0' nr pbi pbs
                (x_copy DYNAMIC targs pbi pbs mem)
                (step_sizes rel (x_copy DYNAMIC targs pbi pbs mem)))); [done|].
  intros j mem1. rewrite !iteration_eq.
  destruct (functor _) as [f_plus|]; [|done]. cbn zeta.
  destruct (kMethod targs); [done|].
  do 3 f_equal.
  apply col_update_ext. intros i c Hi. now rewrite Hagree.
Qed.

Lemma residuals_at_eval_point_read_in_range_witness :
  NumericDiff Samples.DYNAMIC (Samples.static_args FORWARD 1 1) Samples.constant3
    [0; 5]%float 1%float 1 0 1 (Samples.memory [[10%float]] 1)
  = NumericDiff Samples.DYNAMIC (Samples.static_args FORWARD 1 1) Samples.constant3
      [0; 8; 8]%float 1%float 1 0 1 (Samples.memory [[10%float]] 1).
Proof.
  apply (residuals_at_eval_point_read_in_range Samples.DYNAMIC
           (Samples.static_args FORWARD 1 1)).
  intros i Hi. vm_compute in Hi. assert (i = 0) as -> by lia. reflexivity.
Defined.

(** *** The jacobian after a call that returns false *)

Section FailureColumns.

Variable DYNAMIC : Z.
Variable targs : TemplateArgs.
Variable functor : CostFunctor.
Variable residuals_at_eval_point : list double.
Variable relative_step_size : double.
Variables num_residuals parameter_block_index parameter_block_size : Z.

Let k := target_block DYNAMIC targs parameter_block_index.
Let v := parameter_jacobian DYNAMIC targs num_residuals parameter_block_size.
Let round := iteration DYNAMIC targs functor residuals_at_eval_point
               num_residuals parameter_block_index parameter_block_size.
Let slope := finite_difference scaled_difference (kMethod targs) functor
               residuals_at_eval_point relative_step_size.

(** A round that returns false has written to no other column than its
    own. *)
Lemma iteration_failure_jacobian x step_size j mem mem1 :
  j < cols v ->
  round x step_size j mem = (None, mem1) ->
  forall i j', i < rows v -> j' < cols v -> j' <> j ->
    coeff v (jacobian mem1) i j' = coeff v (jacobian mem) i j'.
Proof.
  intros Hj. subst round. rewrite iteration_eq. fold k v.
  destruct (functor _) as [f_plus|]; [|now intros [= <-]].
  destruct (kMethod targs); [|done].
  destruct (functor _) as [f_minus|]; [done|]. intros [= <-] i j' Hi Hj' Hne.
  cbn [jacobian]. now rewrite coeff_col_update_other by done.
Qed.

Lemma for_loop_failure_jacobian x n j mem mem' :
  x = take (cols v) (parameters mem !!! k) ->
  cols v <= length (parameters mem !!! k) ->
  j + n <= cols v ->
  rows v * cols v <= length (jacobian mem) ->
  for_loop (round x (step_sizes relative_step_size x)) n j mem = (None, mem') ->
  exists j' a,
    j <= j' < j + n /\
    functor (with_coordinate k j' a (parameters mem)) = None /\
    parameters mem' = with_coordinate k j' a (parameters mem) /\
    (forall i j'', i < rows v -> j <= j'' < j' ->
       slope (parameters mem) k i j'' = Some (coeff v (jacobian mem') i j'')) /\
    (forall i j'', i < rows v -> j'' < cols v -> j'' < j \/ j' < j'' ->
       coeff v (jacobian mem') i j'' = coeff v (jacobian mem) i j'').
Proof.
  revert j mem. induction n as [|n IH]; intros j mem Hx Hblock Hn Hlen;
    cbn [for_loop]; [done|].
  unfold bind.
  destruct (round x _ j mem) as [[[]|] mem1] eqn:Hround.
  - pose proof Hround as Hp.
    apply (iteration_parameters DYNAMIC targs functor residuals_at_eval_point
             num_residuals parameter_block_index parameter_block_size) in Hp;
      [|exact Hx|change (j < cols v); lia].
    apply iteration_jacobian in Hround as (Hlen1 & Hcol & Hothers);
      [|done|done|change (j < cols v); lia|done].
    fold k v slope in Hlen1, Hcol, Hothers.
    intros Hloop.
    apply IH in Hloop as (j' & a & Hj' & Hfail & Hp' & Hbefore & Hrest);
      [|now rewrite Hp|now rewrite Hp|lia|lia].
    rewrite Hp in Hfail, Hp', Hbefore. exists j', a.
    split; [lia|]. split; [done|]. split; [done|]. split.
    + intros i j'' Hi Hj''. destruct (decide (j'' = j)) as [->|Hne].
      * rewrite Hrest by lia. now apply Hcol.
      * apply Hbefore; [done|lia].
    + intros i j'' Hi Hj'' Hout. rewrite Hrest by lia.
      apply Hothers; [done|lia..].
  - intros [= <-]. pose proof Hround as Hjac.
    apply (iteration_failure DYNAMIC targs functor residuals_at_eval_point
             num_residuals parameter_block_index parameter_block_size)
      in Hround as (a & _ & Hfail & Hp).
    exists j, a. split; [lia|]. split; [done|]. split; [done|].
    split; [intros; lia|].
    intros i j'' Hi Hj'' Hout.
    apply (iteration_failure_jacobian x (step_sizes relative_step_size x) j mem mem1);
      [lia|exact Hjac|done|done|lia].
Qed.

End FailureColumns.

(** A call that returns false, with the evaluation for coordinate j the one
    that failed, has completed the columns before j, which hold their scaled
    differences as after a call that returns true, and has not written to the
    columns after j. *)
Theorem failure_keeps_the_columns_done
    DYNAMIC targs functor r0 rel nr pbi pbs mem mem' :
  NumericDiff DYNAMIC targs functor r0 rel nr pbi pbs mem = Returned false mem' ->
  cols (parameter_jacobian DYNAMIC targs nr pbs)
    <= length (parameters mem !!! target_block DYNAMIC targs pbi) ->
  rows (parameter_jacobian DYNAMIC targs nr pbs)
    * cols (parameter_jacobian DYNAMIC targs nr pbs) <= length (jacobian mem) ->
  exists j a,
    j < cols (parameter_jacobian DYNAMIC targs nr pbs) /\
    functor (with_coordinate (target_block DYNAMIC targs pbi) j a (parameters mem))
    = None /\
    parameters mem'
    = with_coordinate (target_block DYNAMIC targs pbi) j a (parameters mem) /\
    (forall i j', i < rows (parameter_jacobian DYNAMIC targs nr pbs) -> j' < j ->
       finite_difference scaled_difference (kMethod targs) functor r0 rel
         (parameters mem) (target_block DYNAMIC targs pbi) i j'
       = Some (coeff (parameter_jacobian DYNAMIC targs nr pbs)
                 (jacobian mem') i j')) /\
    (forall i j', i < rows (parameter_jacobian DYNAMIC targs nr pbs) ->
       j < j' < cols (parameter_jacobian DYNAMIC targs nr pbs) ->
       coeff (parameter_jacobian DYNAMIC targs nr pbs) (jacobian mem') i j'
       = coeff (parameter_jacobian DYNAMIC targs nr pbs) (jacobian mem) i j').
Proof.
  intros Hcall%NumericDiff_Returned%EvaluateJacobianForParameterBlock_loop
    Hblock Hlen.
  apply for_loop_failure_jacobian in Hcall
    as (j & a & Hj & Hfail & Hp & Hbefore & Hrest); [|done|done|done|done].
  exists j, a. split; [exact (proj2 Hj)|]. split; [done|]. split; [done|]. split.
  - intros i j' Hi Hj'. apply Hbefore; [done|lia].
  - intros i j' Hi Hj'. apply Hrest; [done|lia|lia].
Qed.

Lemma failure_keeps_the_columns_done_witness :
  exists j a,
    j < 2 /\
    [[2; 0x1.800018p+1]%float] = with_coordinate 0 j a [[2; 3]%float].
Proof.
  destruct (failure_keeps_the_columns_done Samples.DYNAMIC
              (Samples.static_args FORWARD 2 2) Samples.quadratic_at_three
              [4; 6]%float 0x1p-20%float 2 0 2 (Samples.memory [[2; 3]%float] 4)
              {| parameters := [[2; 0x1.800018p+1]%float];
                 jacobian := [0x1.000008p+2; 0; 0x1.8p+1; 0]%float;
                 evaluations :=
                   [[[0x1.00001p+1; 3]%float]; [[2; 0x1.800018p+1]%float]] |})
    as (j & a & Hj & _ & Hp & _).
  - vm_compute. reflexivity.
  - vm_compute. lia.
  - vm_compute. lia.
  - exists j, a. split; [exact Hj|exact Hp].
Defined.

(** *** Calling again *)

Section Again.

Variable DYNAMIC : Z.
Variable targs : TemplateArgs.
Variable functor : CostFunctor.
Variable residuals_at_eval_point : list double.
Variables num_residuals parameter_block_index parameter_block_size : Z.

Let round := iteration DYNAMIC targs functor residuals_at_eval_point
               num_residuals parameter_block_index parameter_block_size.

(** The way a round goes and the parameter blocks it leaves depend on the
    parameter blocks it finds only. *)
Lemma iteration_same_parameters x step_size j mem mem2 r mem1 :
  parameters mem2 = parameters mem ->
  round x step_size j mem = (r, mem1) ->
  exists mem3,
    round x step_size j mem2 = (r, mem3) /\ parameters mem3 = parameters mem1.
Proof.
  intros Hp. subst round. rewrite !iteration_eq, Hp.
  destruct (functor _) as [f_plus|]; [|intros [= <- <-]; now eexists].
  destruct (kMethod targs); [destruct (functor _) as [f_minus|]|];
    intros [= <- <-]; now eexists.
Qed.

Lemma for_loop_same_parameters x step_size n j mem mem2 r mem' :
  parameters mem2 = parameters mem ->
  for_loop (round x step_size) n j mem = (r, mem') ->
  exists mem'',
    for_loop (round x step_size) n j mem2 = (r, mem'') /\
    parameters mem'' = parameters mem'.
Proof.
  revert j mem mem2. induction n as [|n IH]; intros j mem mem2 Hp;
    cbn [for_loop].
  { intros [= <- <-]. now exists mem2. }
  unfold bind.
  destruct (round x step_size j mem) as [[[]|] mem1] eqn:Hround;
    apply (iteration_same_parameters _ _ _ _ mem2) in Hround
      as (mem3 & -> & Hp3); try done.
  - intros Hloop. now apply (IH _ _ mem3) in Hloop.
  - intros [= <- <-]. now exists mem3.
Qed.

End Again.

(** After a call that has returned true, the same call returns true again
    and reproduces the jacobian: the parameter blocks are back at the point
    of the first call, and every coefficient of the block is computed again
    to the same double. *)
Theorem calling_again_reproduces_the_jacobian
    DYNAMIC targs functor r0 rel nr pbi pbs mem mem' :
  NumericDiff DYNAMIC targs functor r0 rel nr pbi pbs mem = Returned true mem' ->
  cols (parameter_jacobian DYNAMIC targs nr pbs)
    <= length (parameters mem !!! target_block DYNAMIC targs pbi) ->
  rows (parameter_jacobian DYNAMIC targs nr pbs)
    * cols (parameter_jacobian DYNAMIC targs nr pbs) <= length (jacobian mem) ->
  exists mem'',
    NumericDiff DYNAMIC targs functor r0 rel nr pbi pbs mem' = Returned true mem'' /\
    parameters mem'' = parameters mem /\
    forall i j,
      i < rows (parameter_jacobian DYNAMIC targs nr pbs) ->
      j < cols (parameter_jacobian DYNAMIC targs nr pbs) ->
      coeff (parameter_jacobian DYNAMIC targs nr pbs) (jacobian mem'') i j
      = coeff (parameter_jacobian DYNAMIC targs nr pbs) (jacobian mem') i j.
Proof.
  intros Hcall Hblock Hlen. pose proof Hcall as Hloop.
  unfold NumericDiff in Hcall |- *.
  destruct (kParameterBlockSize targs =? 0)%Z; [done|]. clear Hcall.
  apply NumericDiff_Returned, EvaluateJacobianForParameterBlock_loop in Hloop.
  pose proof Hloop as Hp. apply for_loop_parameters in Hp; [|done|lia].
  pose proof Hloop as Hagain.
  apply for_loop_same_parameters with (mem2 := mem') in Hagain
    as (mem'' & Hagain & Hp''); [|done].
  exists mem''. unfold EvaluateJacobianForParameterBlock, x_copy.
  rewrite Hp. fold (x_copy DYNAMIC targs pbi pbs mem). rewrite Hagain.
  split; [done|]. split; [congruence|]. intros i j Hi Hj.
  apply for_loop_jacobian in Hloop as (Hlen' & Hcols & _); [|done|done|done|done].
  apply for_loop_jacobian in Hagain as (_ & Hcols' & _);
    [|now rewrite Hp|now rewrite Hp|done|lia].
  specialize (Hcols i j Hi (conj (Nat.le_0_l j) Hj)).
  specialize (Hcols' i j Hi (conj (Nat.le_0_l j) Hj)).
  rewrite Hp in Hcols'. congruence.
Qed.

Lemma calling_again_reproduces_the_jacobian_witness :
  exists mem'',
    NumericDiff Samples.DYNAMIC (Samples.static_args FORWARD 2 2) Samples.quadratic
      [4; 6]%float 0x1p-20%float 2 0 2
      {| parameters := [[2; 3]%float];
         jacobian := [0x1.000008p+2; 0; 0x1.8p+1; 0x1p+1]%float;
         evaluations :=
           [[[0x1.00001p+1; 3]%float]; [[2; 0x1.800018p+1]%float]] |}
    = Returned true mem'' /\
    parameters mem'' = [[2; 3]%float].
Proof.
  destruct (calling_again_reproduces_the_jacobian Samples.DYNAMIC
              (Samples.static_args FORWARD 2 2) Samples.quadratic [4; 6]%float
              0x1p-20%float 2 0 2 (Samples.memory [[2; 3]%float] 4)
              {| parameters := [[2; 3]%float];
                 jacobian := [0x1.000008p+2; 0; 0x1.8p+1; 0x1p+1]%float;
                 evaluations :=
                   [[[0x1.00001p+1; 3]%float]; [[2; 0x1.800018p+1]%float]] |})
    as (mem'' & Hcall & Hp & _).
  - vm_compute. reflexivity.
  - vm_compute. lia.
  - vm_compute. lia.
  - exists mem''. split; [exact Hcall|exact Hp].
Defined.

(** ** The effective sizes *)

Lemma internal_values_preferred DYNAMIC targs nr pbi pbs :
  num_residuals_internal DYNAMIC targs nr
  = preferred DYNAMIC (kNumResiduals targs) nr /\
  parameter_block_index_internal DYNAMIC targs pbi
  = preferred DYNAMIC (kParameterBlock targs) pbi /\
  parameter_block_size_internal DYNAMIC targs pbs
  = preferred DYNAMIC (kParameterBlockSize targs) pbs.
Proof.
  unfold num_residuals_internal, parameter_block_index_internal,
    parameter_block_size_internal, preferred.
  split; [|split]; case_decide;
    match goal with |- context [(?a =? ?b)%Z] => destruct (Z.eqb_spec a b) end;
    cbn; congruence.
Qed.

(** C7: the number of residuals, the index of the block and the size of the
    block that the algorithm uses are the template constants wherever those
    are not DYNAMIC, and the run-time arguments only where they are.  With
    m, k and n these three preferred values: the internal values are m, k and
    n, and the call with the arguments replaced by them is the same call; the
    functor is called at the points that perturb coordinates 0 .. n-1 of
    block k, in this order, all of them when the call returns true and a
    first part of them otherwise; nothing is written to the jacobian beyond
    the first m * n doubles; and after a call that returns true coefficient
    (i, j) of the m by n jacobian holds the finite difference of residual i
    in coordinate j of block k, for every i < m and j < n. *)
Theorem effective_sizes_prefer_template_constants
    DYNAMIC targs functor r0 rel nr pbi pbs mem b mem' :
  NumericDiff DYNAMIC targs functor r0 rel nr pbi pbs mem = Returned b mem' ->
  let m := Z.to_nat (preferred DYNAMIC (kNumResiduals targs) nr) in
  let k := Z.to_nat (preferred DYNAMIC (kParameterBlock targs) pbi) in
  let n := Z.to_nat (preferred DYNAMIC (kParameterBlockSize targs) pbs) in
  let x := take n (parameters mem !!! k) in
  let points :=
    flat_map (perturbed_points (kMethod targs) k x (step_sizes rel x)
                (parameters mem)) (seq 0 n) in
  let view :=
    {| order := order (parameter_jacobian DYNAMIC targs nr pbs);
       rows := m; cols := n |} in
  (num_residuals_internal DYNAMIC targs nr
   = preferred DYNAMIC (kNumResiduals targs) nr /\
   parameter_block_index_internal DYNAMIC targs pbi
   = preferred DYNAMIC (kParameterBlock targs) pbi /\
   parameter_block_size_internal DYNAMIC targs pbs
   = preferred DYNAMIC (kParameterBlockSize targs) pbs) /\
  NumericDiff DYNAMIC targs functor r0 rel nr pbi pbs mem
  = NumericDiff DYNAMIC targs functor r0 rel
      (preferred DYNAMIC (kNumResiduals targs) nr)
      (preferred DYNAMIC (kParameterBlock targs) pbi)
      (preferred DYNAMIC (kParameterBlockSize targs) pbs) mem /\
  (exists calls,
     evaluations mem' = evaluations mem ++ calls /\
     calls `prefix_of` points /\
     (b = true -> calls = points)) /\
  (forall p, m * n <= p -> jacobian mem' !!! p = jacobian mem !!! p) /\
  (b = true ->
   n <= length (parameters mem !!! k) ->
   m * n <= length (jacobian mem) ->
   forall i j, i < m -> j < n ->
     finite_difference scaled_difference (kMethod targs) functor r0 rel
       (parameters mem) k i j
     = Some (coeff view (jacobian mem') i j)).
Proof.
  intros Hcall m k n x points view.
  destruct (internal_values_preferred DYNAMIC targs nr pbi pbs)
    as (Hm & Hk & Hn).
  assert (Hview : view = parameter_jacobian DYNAMIC targs nr pbs).
  { subst view m n. now rewrite <- Hm, <- Hn. }
  assert (Hblock : k = target_block DYNAMIC targs pbi).
  { subst k. unfold target_block. now rewrite Hk. }
  assert (Hsize : n = Z.to_nat (parameter_block_size_internal DYNAMIC targs pbs)).
  { subst n. now rewrite Hn. }
  assert (Hcopy : x = x_copy DYNAMIC targs pbi pbs mem).
  { subst x. unfold x_copy. now rewrite <- Hsize, <- Hblock. }
  assert (Hrows : m = rows (parameter_jacobian DYNAMIC targs nr pbs))
    by now rewrite <- Hview.
  assert (Hcols : n = cols (parameter_jacobian DYNAMIC targs nr pbs))
    by now rewrite <- Hview.
  split; [done|]. split.
  { rewrite <- Hm, <- Hk, <- Hn.
    unfold NumericDiff, EvaluateJacobianForParameterBlock, x_copy, iteration,
      parameter_jacobian, target_block, num_residuals_internal,
      parameter_block_index_internal, parameter_block_size_internal.
    destruct (kNumResiduals targs =? DYNAMIC)%Z,
      (kParameterBlock targs =? DYNAMIC)%Z,
      (kParameterBlockSize targs =? DYNAMIC)%Z; reflexivity. }
  apply NumericDiff_Returned, EvaluateJacobianForParameterBlock_loop in Hcall.
  subst points. rewrite Hview, Hcopy, Hblock, Hsize in *. clear Hview Hcopy Hblock Hsize.
  split; [|split].
  - pose proof Hcall as Htrace.
    apply for_loop_trace in Htrace as (calls & Hev & Hpre & Hall); [|done|lia].
    exists calls. split; [done|]. split; [done|]. intros ->. now apply Hall.
  - apply for_loop_frame in Hcall as [_ Hout]; [|cbn; lia].
    intros p Hp. apply Hout. now rewrite <- Hrows.
  - intros -> Hlen Hjac i j Hi Hj.
    apply for_loop_jacobian in Hcall as (_ & Hslopes & _);
      [|done|done|cbn; lia|now rewrite <- Hrows].
    apply Hslopes; [now rewrite <- Hrows|]. split; [lia|exact Hj].
Qed.

Lemma effective_sizes_prefer_template_constants_witness :
  exists calls,
    [[[0x1.00001p+1; 3]%float]; [[2; 0x1.800018p+1]%float]] = [] ++ calls /\
    calls
    = flat_map
        (perturbed_points FORWARD 0 [2; 3]%float
           (step_sizes 0x1p-20%float [2; 3]%float) [[2; 3]%float])
        (seq 0 2).
Proof.
  destruct (effective_sizes_prefer_template_constants Samples.DYNAMIC
              (Samples.static_args FORWARD 2 2) Samples.quadratic [4; 6]%float
              0x1p-20%float 7 7 7 (Samples.memory [[2; 3]%float] 4) true
              {| parameters := [[2; 3]%float];
                 jacobian := [0x1.000008p+2; 0; 0x1.8p+1; 0x1p+1]%float;
                 evaluations :=
                   [[[0x1.00001p+1; 3]%float]; [[2; 0x1.800018p+1]%float]] |})
    as (_ & _ & (calls & Hev & _ & Hall) & _).
  - vm_compute. reflexivity.
  - exists calls. split; [exact Hev|]. now apply Hall.
Defined.
